(** * meme: demotivator generator (src/main.go), embedded in Rocq

    The Go package [meme] lays a source image on a padded canvas, draws a
    border ring and up to two outlined captions, and keeps parsed font files
    in a per-generator cache.  This development embeds the package function by
    function and proves the layout, rendering, caching and error properties of
    its specification.

    Conventions of the embedding:
    - Go's [int] is a 64-bit two's-complement integer: a [Z] wrapped by
      [GoInt.wrap] after every arithmetic operation;
    - Go's [float64] is IEEE 754 binary64 with round-to-nearest-even: a
      [spec_float] computed with the Standard Library's executable
      specification [SpecFloat] at precision 53 and exponent bound 1024;
    - Go strings are byte strings: [string];
    - the font cache [map[string]*opentype.Font] is a [gmap string Font];
    - the output image is the rectangle it was allocated with and the
      sequence of drawing calls made on it;
    - the file system, the OpenType parser, the face constructor and the
      text measurer live outside the package: they are parameters. *)

From Stdlib Require Import ZArith Lia List Bool Ascii String.
From Stdlib Require Import Floats.SpecFloat Zpower.
From stdpp Require Import gmap strings.

Local Open Scope Z_scope.

(** ** Go's [int] *)

Module GoInt.

Definition modulus : Z := 18446744073709551616.   (* 2^64 *)
Definition half : Z := 9223372036854775808.       (* 2^63 *)
Definition min_int : Z := - half.
Definition max_int : Z := half - 1.

(** Two's-complement wrap-around into [min_int, max_int]. *)
Definition wrap (z : Z) : Z := (z + half) mod modulus - half.

Definition in_range (z : Z) : bool := (min_int <=? z) && (z <=? max_int).

Definition add (a b : Z) : Z := wrap (a + b).
Definition sub (a b : Z) : Z := wrap (a - b).
Definition mul (a b : Z) : Z := wrap (a * b).
Definition neg (a : Z) : Z := wrap (- a).
(** Go's [/] on integers truncates toward zero. *)
Definition quo (a b : Z) : Z := wrap (Z.quot a b).

Lemma wrap_range z : min_int <= wrap z <= max_int.
Proof.
  unfold wrap, min_int, max_int.
  pose proof (Z.mod_pos_bound (z + half) modulus) as H.
  unfold modulus, half in *. lia.
Qed.

Lemma wrap_id z : min_int <= z <= max_int -> wrap z = z.
Proof.
  unfold wrap, min_int, max_int, half, modulus. intros H.
  rewrite Z.mod_small by lia. lia.
Qed.

Lemma in_range_spec z : in_range z = true <-> min_int <= z <= max_int.
Proof. unfold in_range. rewrite andb_true_iff, !Z.leb_le. tauto. Qed.

Lemma add_exact a b : min_int <= a + b <= max_int -> add a b = a + b.
Proof. apply wrap_id. Qed.

Lemma sub_exact a b : min_int <= a - b <= max_int -> sub a b = a - b.
Proof. apply wrap_id. Qed.

Lemma mul_exact a b : min_int <= a * b <= max_int -> mul a b = a * b.
Proof. apply wrap_id. Qed.

Lemma add_0_l a : min_int <= a <= max_int -> add 0 a = a.
Proof. intros H. unfold add. now rewrite Z.add_0_l, wrap_id. Qed.

Lemma wrap_add_l a b : wrap (wrap a + b) = wrap (a + b).
Proof.
  unfold wrap. f_equal.
  replace ((a + half) mod modulus - half + b + half)
    with ((a + half) mod modulus + b) by lia.
  rewrite Z.add_mod_idemp_l by (unfold modulus; lia).
  f_equal. lia.
Qed.

Lemma wrap_add_r a b : wrap (a + wrap b) = wrap (a + b).
Proof. rewrite (Z.add_comm a (wrap b)), wrap_add_l. f_equal. lia. Qed.

Lemma wrap_0 : wrap 0 = 0.
Proof. reflexivity. Qed.

End GoInt.

(** ** Go's [float64] *)

Module F64.

Definition prec : Z := 53.
Definition emax : Z := 1024.

Abbreviation float64 := spec_float.

Definition mul : float64 -> float64 -> float64 := SFmul prec emax.
Definition div : float64 -> float64 -> float64 := SFdiv prec emax.
Definition ltb : float64 -> float64 -> bool := SFltb.
Definition leb : float64 -> float64 -> bool := SFleb.

(** [float64(n)] for an integer [n]: the nearest binary64. *)
Definition of_int (n : Z) : float64 := binary_normalize prec emax n 0 false.

(** A decimal literal [num/den] of the source: the nearest binary64. *)
Definition lit (num den : Z) : float64 := div (of_int num) (of_int den).

(** The literals of [Generate]. *)
Definition c0_5 : float64 := S754_finite false 4503599627370496 (-53).
Definition c0_8 : float64 := S754_finite false 7205759403792794 (-53).
Definition c1_2 : float64 := S754_finite false 5404319552844595 (-52).
Definition c1_5 : float64 := S754_finite false 6755399441055744 (-52).
Definition c2_0 : float64 := S754_finite false 4503599627370496 (-51).
Definition c24 : float64 := S754_finite false 6755399441055744 (-48).
Definition c48 : float64 := S754_finite false 6755399441055744 (-47).
Definition c96 : float64 := S754_finite false 6755399441055744 (-46).
Definition c192 : float64 := S754_finite false 6755399441055744 (-45).
Definition c800 : float64 := S754_finite false 7036874417766400 (-43).

Lemma literals :
  c0_5 = lit 1 2 /\ c0_8 = lit 8 10 /\ c1_2 = lit 12 10 /\ c1_5 = lit 15 10 /\
  c2_0 = of_int 2 /\ c24 = of_int 24 /\ c48 = of_int 48 /\ c96 = of_int 96 /\
  c192 = of_int 192 /\ c800 = of_int 800.
Proof. repeat split; vm_compute; reflexivity. Qed.

(** The integer part of a finite float, fraction discarded (toward zero). *)
Definition trunc (x : float64) : option Z :=
  match x with
  | S754_zero _ => Some 0
  | S754_finite s m e =>
      Some (cond_Zopp s (match e with
                         | Zneg p => Z.pos m / 2 ^ Z.pos p
                         | _ => Z.pos m * 2 ^ e
                         end))
  | _ => None
  end.

(** The greatest integer below or equal to a finite float. *)
Definition floor (x : float64) : option Z :=
  match x with
  | S754_zero _ => Some 0
  | S754_finite s m e =>
      Some (match e with
            | Zneg p => cond_Zopp s (Z.pos m) / 2 ^ Z.pos p
            | _ => cond_Zopp s (Z.pos m) * 2 ^ e
            end)
  | _ => None
  end.

Section Conversion.
(** Go leaves [int(x)] implementation-dependent when [x] is a NaN, an
    infinity or outside the range of [int]. *)
Variable unspecified : float64 -> Z.

(** [int(x)]: truncation toward zero. *)
Definition to_int (x : float64) : Z :=
  match trunc x with
  | Some z => if GoInt.in_range z then z else unspecified x
  | None => unspecified x
  end.

(** [int(math.Floor(x))]: the reading of the specification's floor(x)
    as a Go [int].  Beyond the range of [int] a float is an integer
    already, so the conversion's argument is [x] itself. *)
Definition floor_int (x : float64) : Z :=
  match floor x with
  | Some z => if GoInt.in_range z then z else unspecified x
  | None => unspecified x
  end.
End Conversion.

(** The smaller and the larger of two floats, and a float clamped to an
    interval, as the specification words the scale factor. *)
Definition fmin (a b : float64) : float64 := if ltb b a then b else a.
Definition fmax (a b : float64) : float64 := if ltb a b then b else a.
Definition clamp (lo hi x : float64) : float64 := fmax lo (fmin hi x).

(** [0 <= x], as Go compares floats (false on a NaN). *)
Definition nonneg (x : float64) : bool := leb (S754_zero false) x.

End F64.

(** ** Facts on [float64]: conversion to [int], rounding, division by 800 *)

Module F64Facts.

(** *** Conversion to [int] against the floor *)

(** Zero, positive, infinite or NaN: everything but a negative finite float. *)
Definition not_negative (x : F64.float64) : Prop :=
  match x with
  | S754_finite true _ _ => False
  | _ => True
  end.

Lemma to_int_floor u x : not_negative x -> F64.to_int u x = F64.floor_int u x.
Proof.
  destruct x as [s | s | | s m e]; try reflexivity.
  destruct s; [contradiction | reflexivity].
Qed.

Lemma round_aux_sign s m e l :
  match binary_round_aux F64.prec F64.emax s m e l with
  | S754_finite s' _ _ => s' = s
  | S754_zero s' => s' = s
  | S754_infinity s' => s' = s
  | S754_nan => True
  end.
Proof.
  unfold binary_round_aux.
  destruct (shr_fexp F64.prec F64.emax m e l) as [mrs' e'].
  destruct (shr_fexp F64.prec F64.emax _ e' loc_Exact) as [mrs'' e''].
  destruct (shr_m mrs''); trivial.
  destruct (e'' <=? F64.emax - F64.prec); reflexivity.
Qed.

Lemma nonneg_cases x :
  F64.nonneg x = true ->
  (exists s, x = S754_zero s) \/ x = S754_infinity false \/
  (exists m e, x = S754_finite false m e).
Proof.
  destruct x as [s | s | | s m e]; simpl; intros H.
  - left; eauto.
  - destruct s; [discriminate | auto].
  - discriminate.
  - destruct s; [discriminate | right; right; eauto].
Qed.

(** A non-negative float times a positive literal is not negative. *)
Lemma mul_not_negative x m e :
  F64.nonneg x = true -> not_negative (F64.mul x (S754_finite false m e)).
Proof.
  intros H. destruct (nonneg_cases x H) as [[s ->] | [-> | (mx & ex & ->)]];
    try exact I.
  unfold F64.mul, SFmul. simpl xorb.
  pose proof (round_aux_sign false (Z.pos (mx * m)) (ex + e) loc_Exact) as Hs.
  destruct (binary_round_aux _ _ _ _ _ _) as [s | s | | s m' e']; try exact I.
  subst s. exact I.
Qed.

(** *** Rounding in the normal range

    [binary_round_aux] on a mantissa of at least 53 digits, away from
    underflow: the result keeps the sign, has a 53-digit mantissa and an
    exponent that is no smaller than the one of the truncated mantissa. *)

Lemma digits_bounds p :
  2 ^ (Z.pos (digits2_pos p) - 1) <= Z.pos p < 2 ^ Z.pos (digits2_pos p).
Proof.
  induction p as [p IH | p IH |]; simpl digits2_pos.
  - rewrite Pos2Z.inj_succ, Z.pow_succ_r by lia.
    replace (Z.succ (Z.pos (digits2_pos p)) - 1) with (Z.succ (Z.pos (digits2_pos p) - 1)) by lia.
    rewrite Z.pow_succ_r by lia. lia.
  - rewrite Pos2Z.inj_succ, Z.pow_succ_r by lia.
    replace (Z.succ (Z.pos (digits2_pos p)) - 1) with (Z.succ (Z.pos (digits2_pos p) - 1)) by lia.
    rewrite Z.pow_succ_r by lia. lia.
  - simpl. lia.
Qed.

Lemma digits_unique m k :
  2 ^ (k - 1) <= Z.pos m < 2 ^ k -> Z.pos (digits2_pos m) = k.
Proof.
  intros [Hlo Hhi]. pose proof (digits_bounds m) as [Dlo Dhi].
  set (d := Z.pos (digits2_pos m)) in *.
  assert (0 < k).
  { destruct (Z_lt_le_dec 0 k) as [|Hk]; [assumption |].
    exfalso. destruct (Z.eq_dec k 0) as [-> | Hne]; [simpl in Hhi; lia |].
    rewrite Z.pow_neg_r in Hhi by lia. lia. }
  destruct (Z_lt_le_dec d k) as [Hlt | Hge].
  - assert (2 ^ d <= 2 ^ (k - 1)) by (apply Z.pow_le_mono_r; lia). lia.
  - destruct (Z_lt_le_dec k d) as [Hlt | Hge'].
    + assert (2 ^ k <= 2 ^ (d - 1)) by (apply Z.pow_le_mono_r; lia). lia.
    + lia.
Qed.

Lemma shr_record_m m l : shr_m (shr_record_of_loc m l) = m.
Proof. destruct l as [| []]; reflexivity. Qed.

Lemma shr_1_m mrs : 0 <= shr_m mrs -> shr_m (shr_1 mrs) = shr_m mrs / 2.
Proof.
  destruct mrs as [m r s]. simpl. intros Hm.
  destruct m as [| p | p]; [reflexivity | | lia].
  destruct p as [p | p |]; simpl.
  - apply (Z.div_unique _ 2 _ 1); lia.
  - apply (Z.div_unique _ 2 _ 0); lia.
  - reflexivity.
Qed.

Lemma iter_shr_m p : forall mrs,
  0 <= shr_m mrs ->
  shr_m (SpecFloat.iter_pos shr_1 p mrs) = shr_m mrs / 2 ^ Z.pos p.
Proof.
  induction p as [p IH | p IH |]; intros mrs Hm; simpl SpecFloat.iter_pos.
  - assert (H1 : 0 <= shr_m (shr_1 mrs)).
    { rewrite shr_1_m by assumption. apply Z.div_pos; lia. }
    assert (H2 : 0 <= shr_m (SpecFloat.iter_pos shr_1 p (shr_1 mrs))).
    { rewrite IH by assumption. apply Z.div_pos; [assumption | apply Z.pow_pos_nonneg; lia]. }
    rewrite IH, IH, shr_1_m by assumption.
    rewrite !Zdiv.Zdiv_Zdiv by (try apply Z.pow_nonneg; lia).
    f_equal. rewrite Pos2Z.inj_xI.
    replace (2 * Z.pos p + 1) with (1 + Z.pos p + Z.pos p) by lia.
    rewrite !Z.pow_add_r by lia. change (2 ^ 1) with 2. ring.
  - assert (H2 : 0 <= shr_m (SpecFloat.iter_pos shr_1 p mrs)).
    { rewrite IH by assumption. apply Z.div_pos; [assumption | apply Z.pow_pos_nonneg; lia]. }
    rewrite IH, IH by assumption.
    rewrite Zdiv.Zdiv_Zdiv by (apply Z.pow_nonneg; lia).
    f_equal. rewrite Pos2Z.inj_xO, <- Z.pow_add_r by lia. f_equal. lia.
  - rewrite shr_1_m by assumption. reflexivity.
Qed.

Lemma fexp_normal z : -1021 <= z -> fexp F64.prec F64.emax z = z - 53.
Proof. intros H. unfold fexp, emin, F64.prec, F64.emax. lia. Qed.

Lemma round_nearest_even_bounds m l : m <= round_nearest_even m l <= m + 1.
Proof.
  destruct l as [| []]; simpl; try lia.
  destruct (Z.even m); lia.
Qed.

(** First shift of [binary_round_aux]: a mantissa of at least 53 digits is
    cut to 53 digits. *)
Lemma shr_fexp_normal m e l :
  53 <= Z.pos (digits2_pos m) -> -1074 <= e ->
  let r := shr_fexp F64.prec F64.emax (Z.pos m) e l in
  2 ^ 52 <= shr_m (fst r) < 2 ^ 53 /\ snd r = e + Z.pos (digits2_pos m) - 53.
Proof.
  intros Hd He. unfold shr_fexp. simpl Zdigits2.
  pose proof (digits_bounds m) as [Dlo Dhi].
  set (d := Z.pos (digits2_pos m)) in *.
  rewrite fexp_normal by lia.
  replace (d + e - 53 - e) with (d - 53) by lia.
  unfold shr. destruct (d - 53) as [| n | n] eqn:En; try lia.
  - simpl. rewrite shr_record_m. assert (d = 53) as Hd' by lia.
    rewrite Hd' in *. simpl in Dlo. split; [lia | lia].
  - simpl fst. simpl snd. rewrite iter_shr_m by (rewrite shr_record_m; lia).
    rewrite shr_record_m. split; [| lia].
    assert (Hpow : 2 ^ d = 2 ^ Z.pos n * 2 ^ 53).
    { rewrite <- Z.pow_add_r by lia. f_equal. lia. }
    assert (Hpow' : 2 ^ (d - 1) = 2 ^ Z.pos n * 2 ^ 52).
    { rewrite <- Z.pow_add_r by lia. f_equal. lia. }
    assert (0 < 2 ^ Z.pos n) by (apply Z.pow_pos_nonneg; lia).
    split.
    + apply Z.div_le_lower_bound; lia.
    + apply Z.div_lt_upper_bound; lia.
Qed.

Lemma round_aux_normal s m e l :
  53 <= Z.pos (digits2_pos m) -> -1074 <= e ->
  binary_round_aux F64.prec F64.emax s (Z.pos m) e l = S754_infinity s \/
  exists m' e',
    binary_round_aux F64.prec F64.emax s (Z.pos m) e l = S754_finite s m' e' /\
    Z.pos (digits2_pos m') = 53 /\
    e + Z.pos (digits2_pos m) - 53 <= e'.
Proof.
  intros Hd He. unfold binary_round_aux.
  pose proof (shr_fexp_normal m e l Hd He) as Hs. cbv zeta in Hs.
  destruct (shr_fexp F64.prec F64.emax (Z.pos m) e l) as [mrs1 e1]. cbn [fst snd] in Hs.
  destruct Hs as [Hm1 ->].
  set (e1 := e + Z.pos (digits2_pos m) - 53) in *.
  pose proof (round_nearest_even_bounds (shr_m mrs1) (loc_of_shr_record mrs1)) as Hr.
  set (m2 := round_nearest_even (shr_m mrs1) (loc_of_shr_record mrs1)) in *.
  destruct m2 as [| p2 | p2] eqn:Em2; try lia.
  assert (He1 : -1074 <= e1) by (unfold e1; lia).
  destruct (Z_lt_le_dec (Z.pos p2) (2 ^ 53)) as [Hlt | Hge].
  - (* no carry: the mantissa keeps 53 digits *)
    assert (Hd2 : Z.pos (digits2_pos p2) = 53) by (apply digits_unique; simpl; lia).
    unfold shr_fexp. simpl Zdigits2. rewrite Hd2, fexp_normal by lia.
    replace (53 + e1 - 53 - e1) with 0 by lia. simpl.
    destruct (_ <=? _); [right | left; reflexivity].
    exists p2, e1. repeat split; [assumption | lia].
  - (* carry: the mantissa is 2^53 and is shifted once *)
    assert (Hp2 : Z.pos p2 = 2 ^ 53) by lia.
    assert (Hd2 : Z.pos (digits2_pos p2) = 54) by (apply digits_unique; simpl; lia).
    unfold shr_fexp. simpl Zdigits2. rewrite Hd2, fexp_normal by lia.
    replace (54 + e1 - 53 - e1) with 1 by lia.
    injection Hp2 as ->. simpl.
    destruct (_ <=? _); [right | left; reflexivity].
    eexists _, (e1 + 1). repeat split; try reflexivity; lia.
Qed.

Lemma iter_xO_pos m k : Z.pos (Pos.iter xO m k) = Z.pos m * 2 ^ Z.pos k.
Proof.
  change (Pos.iter xO m k) with (shift_pos k m).
  rewrite shift_pos_correct, Zpower_pos_nat, Zpower_nat_Z, positive_nat_Z. lia.
Qed.

(** [float64(n)] for [n <> 0]: a normal float with the sign of [n], whose
    exponent is at least [digits n - 53] (or an infinity). *)
Lemma binary_round_int s p :
  binary_round F64.prec F64.emax s p 0 = S754_infinity s \/
  exists m e,
    binary_round F64.prec F64.emax s p 0 = S754_finite s m e /\
    Z.pos (digits2_pos m) = 53 /\
    Z.pos (digits2_pos p) - 53 <= e.
Proof.
  unfold binary_round. rewrite Z.add_0_r, fexp_normal by lia.
  set (d := Z.pos (digits2_pos p)).
  unfold shl_align. rewrite Z.sub_0_r.
  destruct (d - 53) as [| n | n] eqn:En.
  - destruct (round_aux_normal s p 0 loc_Exact ltac:(fold d; lia) ltac:(lia))
      as [Hinf | (m & e & Hf & Hd & He)]; [now left | right].
    exists m, e. fold d in He. repeat split; try assumption; lia.
  - destruct (round_aux_normal s p 0 loc_Exact ltac:(fold d; lia) ltac:(lia))
      as [Hinf | (m & e & Hf & Hd & He)]; [now left | right].
    exists m, e. fold d in He. repeat split; try assumption; lia.
  - assert (Hdig : Z.pos (digits2_pos (Pos.iter xO p n)) = 53).
    { apply digits_unique. rewrite iter_xO_pos.
      pose proof (digits_bounds p) as [Dlo Dhi]. fold d in Dlo, Dhi.
      assert (H52 : 2 ^ (53 - 1) = 2 ^ (d - 1) * 2 ^ Z.pos n).
      { rewrite <- Z.pow_add_r by lia. f_equal. lia. }
      assert (H53 : 2 ^ 53 = 2 ^ d * 2 ^ Z.pos n).
      { rewrite <- Z.pow_add_r by lia. f_equal. lia. }
      assert (0 < 2 ^ Z.pos n) by (apply Z.pow_pos_nonneg; lia).
      rewrite H52, H53. split; nia. }
    destruct (round_aux_normal s (Pos.iter xO p n) (Z.neg n) loc_Exact
                ltac:(lia) ltac:(lia))
      as [Hinf | (m & e & Hf & Hd & He)]; [now left | right].
    exists m, e. rewrite Hdig in He. repeat split; try assumption; lia.
Qed.

Lemma div_core_normal mx ex my ey :
  Z.pos (digits2_pos mx) = 53 -> Z.pos (digits2_pos my) = 53 ->
  -1021 <= ex - ey ->
  exists q r,
    SFdiv_core_binary F64.prec F64.emax (Z.pos mx) ex (Z.pos my) ey =
      (Z.pos q, ex - ey - 53, new_location (Z.pos my) r) /\
    53 <= Z.pos (digits2_pos q).
Proof.
  intros Hdx Hdy He. unfold SFdiv_core_binary, Zdigits2. rewrite Hdx, Hdy.
  replace (53 + ex - (53 + ey)) with (ex - ey) by lia.
  rewrite fexp_normal by lia.
  rewrite Z.min_l by lia.
  replace (ex - ey - (ex - ey - 53)) with 53 by lia.
  rewrite Z.shiftl_mul_pow2 by lia.
  pose proof (digits_bounds mx) as [Xlo Xhi]. rewrite Hdx in Xlo, Xhi.
  pose proof (digits_bounds my) as [Ylo Yhi]. rewrite Hdy in Ylo, Yhi.
  replace (53 - 1) with 52 in * by lia.
  set (P52 := 2 ^ 52) in *. set (P53 := 2 ^ 53) in *.
  assert (HP : P53 = 2 * P52) by reflexivity.
  assert (HP0 : 0 < P52) by reflexivity.
  pose proof (Z.div_eucl_eq (Z.pos mx * P53) (Z.pos my) ltac:(lia)) as Heq.
  pose proof (Z.mod_pos_bound (Z.pos mx * P53) (Z.pos my) ltac:(lia)) as Hmod.
  unfold Z.modulo in Hmod.
  destruct (Z.div_eucl (Z.pos mx * P53) (Z.pos my)) as [q r].
  assert (Hq : P52 <= q).
  { destruct (Z_lt_le_dec q P52) as [Hlt |]; [exfalso | assumption].
    assert (Z.pos my * q <= Z.pos my * (P52 - 1)) by (apply Z.mul_le_mono_nonneg_l; lia).
    assert (P52 * P53 <= Z.pos mx * P53) by (apply Z.mul_le_mono_nonneg_r; lia).
    assert (Z.pos my * (P52 - 1) + Z.pos my <= P53 * P52).
    { replace (Z.pos my * (P52 - 1) + Z.pos my) with (Z.pos my * P52) by ring.
      apply Z.mul_le_mono_nonneg_r; lia. }
    lia. }
  destruct q as [| pq | pq]; try lia.
  exists pq, r. split; [reflexivity |].
  pose proof (digits_bounds pq) as [_ Qhi].
  destruct (Z_lt_le_dec (Z.pos (digits2_pos pq)) 53) as [Hlt |]; [| assumption].
  assert (2 ^ Z.pos (digits2_pos pq) <= 2 ^ 52) by (apply Z.pow_le_mono_r; lia).
  fold P52 in H. lia.
Qed.

(** Division of a normal float by 800: the exponent drops by at most 10. *)
Lemma div_800 s mx ex :
  Z.pos (digits2_pos mx) = 53 -> -1000 <= ex ->
  F64.div (S754_finite s mx ex) F64.c800 = S754_infinity s \/
  exists m e,
    F64.div (S754_finite s mx ex) F64.c800 = S754_finite s m e /\ ex - 10 <= e.
Proof.
  intros Hd He. unfold F64.div, F64.c800, SFdiv.
  rewrite xorb_false_r.
  destruct (div_core_normal mx ex 7036874417766400 (-43) Hd ltac:(reflexivity) ltac:(lia))
    as (q & r & Hcore & Hdq).
  rewrite Hcore.
  destruct (round_aux_normal s q (ex - -43 - 53)
              (new_location 7036874417766400 r) Hdq ltac:(lia))
    as [Hinf | (m & e & Hf & _ & Hle)]; [now left | right].
  exists m, e. split; [assumption | lia].
Qed.

End F64Facts.

(** ** Strings: [strings.ToUpper] *)

Module GoStrings.

Definition byte_of (c : ascii) : Z := Z.of_N (N_of_ascii c).

(** [s != ""] *)
Definition nonempty (s : string) : bool :=
  match s with
  | EmptyString => false
  | String _ _ => true
  end.

Fixpoint map_bytes (f : ascii -> ascii) (s : string) : string :=
  match s with
  | EmptyString => EmptyString
  | String c r => String (f c) (map_bytes f r)
  end.

Fixpoint all_bytes (p : ascii -> bool) (s : string) : bool :=
  match s with
  | EmptyString => true
  | String c r => p c && all_bytes p r
  end.

Fixpoint any_byte (p : ascii -> bool) (s : string) : bool :=
  match s with
  | EmptyString => false
  | String c r => p c || any_byte p r
  end.

(** [c < utf8.RuneSelf] *)
Definition is_ascii (c : ascii) : bool := byte_of c <? 128.

(** ['a' <= c && c <= 'z'] *)
Definition is_lower (c : ascii) : bool := (97 <=? byte_of c) && (byte_of c <=? 122).

(** [c -= 'a' - 'A'] on a lower-case letter, other bytes kept. *)
Definition upper_byte (c : ascii) : ascii :=
  if is_lower c then ascii_of_N (Z.to_N (byte_of c - 32)) else c.

Section ToUpper.
(** [strings.Map(unicode.ToUpper, s)], taken by [strings.ToUpper] when
    [s] holds a byte outside ASCII; it rests on the Unicode case tables. *)
Variable map_unicode_upper : string -> string.

(** [strings.ToUpper]: ASCII-only strings take the byte-wise path. *)
Definition ToUpper (s : string) : string :=
  if all_bytes is_ascii s then
    if any_byte is_lower s then map_bytes upper_byte s else s
  else map_unicode_upper s.
End ToUpper.

Lemma map_bytes_nonempty f s : nonempty (map_bytes f s) = nonempty s.
Proof. destruct s; reflexivity. Qed.

Lemma nonempty_false s : nonempty s = false <-> s = ""%string.
Proof. destruct s; simpl; split; congruence. Qed.

Lemma nonempty_true s : nonempty s = true <-> s <> ""%string.
Proof. destruct s; simpl; split; congruence. Qed.

End GoStrings.

(** ** Geometry and colours: [image], [image/color] *)

Record RGBA := { R : Z; G : Z; B : Z; A : Z }.

Record Point := { X : Z; Y : Z }.

Record Rectangle := { Min : Point; Max : Point }.

(** [image.Rect]: the corners are swapped where needed, so that the result
    is well-formed. *)
Definition Rect (x0 y0 x1 y1 : Z) : Rectangle :=
  let '(x0, x1) := if x1 <? x0 then (x1, x0) else (x0, x1) in
  let '(y0, y1) := if y1 <? y0 then (y1, y0) else (y0, y1) in
  {| Min := {| X := x0; Y := y0 |}; Max := {| X := x1; Y := y1 |} |}.

Definition Dx (r : Rectangle) : Z := GoInt.sub (X (Max r)) (X (Min r)).
Definition Dy (r : Rectangle) : Z := GoInt.sub (Y (Max r)) (Y (Min r)).

(** A source image ([image.Image]): its bounds and its pixels. *)
Record Image := { Bounds : Rectangle; At : Z -> Z -> RGBA }.

(** ** Configuration *)

Record Config := {
  TopText : string;
  BottomText : string;
  FontSize : F64.float64;
  FontPath : string;
  FontData : list Byte.byte;
  Padding : Z;
  Border : Z;
  BackgroundColor : RGBA;
  BorderColor : RGBA;
  TextColor : RGBA;
  TextOutlineColor : RGBA;
  TextOutlineWidth : Z;
  TextUppercase : bool;
  AutoFontSize : bool
}.

Definition DefaultConfig : Config := {|
  TopText := "";
  BottomText := "";
  FontSize := F64.c48;
  FontPath := "";
  FontData := [];
  Padding := 80;
  Border := 10;
  BackgroundColor := {| R := 0; G := 0; B := 0; A := 255 |};
  BorderColor := {| R := 255; G := 255; B := 255; A := 255 |};
  TextColor := {| R := 255; G := 255; B := 255; A := 255 |};
  TextOutlineColor := {| R := 0; G := 0; B := 0; A := 255 |};
  TextOutlineWidth := 6;
  TextUppercase := true;
  AutoFontSize := true
|}.

(** Field updates, as a caller holding the [*Config] makes them. *)
Definition setCaptions (top bottom : string) (upper : bool) (cfg : Config) : Config :=
  {| TopText := top;
     BottomText := bottom;
     FontSize := FontSize cfg;
     FontPath := FontPath cfg;
     FontData := FontData cfg;
     Padding := Padding cfg;
     Border := Border cfg;
     BackgroundColor := BackgroundColor cfg;
     BorderColor := BorderColor cfg;
     TextColor := TextColor cfg;
     TextOutlineColor := TextOutlineColor cfg;
     TextOutlineWidth := TextOutlineWidth cfg;
     TextUppercase := upper;
     AutoFontSize := AutoFontSize cfg |}.

Definition setBorder (border : Z) (cfg : Config) : Config :=
  {| TopText := TopText cfg;
     BottomText := BottomText cfg;
     FontSize := FontSize cfg;
     FontPath := FontPath cfg;
     FontData := FontData cfg;
     Padding := Padding cfg;
     Border := border;
     BackgroundColor := BackgroundColor cfg;
     BorderColor := BorderColor cfg;
     TextColor := TextColor cfg;
     TextOutlineColor := TextOutlineColor cfg;
     TextOutlineWidth := TextOutlineWidth cfg;
     TextUppercase := TextUppercase cfg;
     AutoFontSize := AutoFontSize cfg |}.

Definition setFont (path : string) (data : list Byte.byte) (cfg : Config) : Config :=
  {| TopText := TopText cfg;
     BottomText := BottomText cfg;
     FontSize := FontSize cfg;
     FontPath := path;
     FontData := data;
     Padding := Padding cfg;
     Border := Border cfg;
     BackgroundColor := BackgroundColor cfg;
     BorderColor := BorderColor cfg;
     TextColor := TextColor cfg;
     TextOutlineColor := TextOutlineColor cfg;
     TextOutlineWidth := TextOutlineWidth cfg;
     TextUppercase := TextUppercase cfg;
     AutoFontSize := AutoFontSize cfg |}.

Definition setFontSize (size : F64.float64) (auto : bool) (cfg : Config) : Config :=
  {| TopText := TopText cfg;
     BottomText := BottomText cfg;
     FontSize := size;
     FontPath := FontPath cfg;
     FontData := FontData cfg;
     Padding := Padding cfg;
     Border := Border cfg;
     BackgroundColor := BackgroundColor cfg;
     BorderColor := BorderColor cfg;
     TextColor := TextColor cfg;
     TextOutlineColor := TextOutlineColor cfg;
     TextOutlineWidth := TextOutlineWidth cfg;
     TextUppercase := TextUppercase cfg;
     AutoFontSize := auto |}.

(** ** Errors *)

Inductive error :=
| ErrLib (msg : string)            (* an error of the os or opentype package *)
| ErrFontNotFound (path : string)  (* loadFontFromFile: the file does not exist *)
| ErrFontAccess (cause : error)    (* loadFontFromFile: os.Stat failed *)
| ErrFontEmpty                     (* loadFontFromFile: the file has size 0 *)
| ErrFontTooLarge (size : Z)       (* loadFontFromFile: more than 10 MiB *)
| ErrFontRead (cause : error)      (* loadFontFromFile: os.ReadFile failed *)
| ErrFontTooSmall                  (* loadFontFromFile: fewer than 4 bytes *)
| ErrFontParse (cause : error)     (* loadFont: opentype.Parse failed *)
| ErrPreloadParse (cause : error)  (* PreloadFont: opentype.Parse failed *)
| ErrFaceFromCache (cause : error) (* loadFont: NewFace failed on a cached font *)
| ErrFace (cause : error)          (* loadFont: NewFace failed on a parsed font *)
| ErrLoadFont (cause : error).     (* Generate: loadFont failed *)

Inductive result (T : Type) :=
| Ok (v : T)
| Err (e : error).
Arguments Ok {T} v.
Arguments Err {T} e.

(** ** The world outside the package *)

(** [os.Stat] as [loadFontFromFile] reads it: the file is missing, the call
    fails otherwise, or it yields the file's size. *)
Inductive StatResult :=
| StatNotExist
| StatFailed (e : error)
| StatSize (size : Z).

(** The file system at the time of a call. *)
Record FileSystem := {
  os_Stat : string -> StatResult;
  os_ReadFile : string -> result (list Byte.byte)
}.

(** What a call asks of its collaborators, in order. *)
Inductive Event :=
| EvStat (path : string)
| EvReadFile (path : string)
| EvParse (data : list Byte.byte).

Inductive Hinting := HintingNone | HintingVertical | HintingFull.

Record FaceOptions := { Size : F64.float64; DPI : F64.float64; FaceHinting : Hinting }.

(** [for i := lo; i <= hi; i++]: the values of the counter, in order. *)
Definition int_range (lo hi : Z) : list Z :=
  List.map (fun i => lo + Z.of_nat i) (seq 0 (Z.to_nat (hi - lo + 1))).

Section Meme.

Variable Font : Type.                  (* *opentype.Font *)
Variable Face : Type.                  (* font.Face *)
Variable opentype_Parse : list Byte.byte -> result Font.
Variable opentype_NewFace : Font -> FaceOptions -> result Face.
(** [(&font.Drawer{Face: face}).MeasureString(text).Ceil()] *)
Variable MeasureString : Face -> string -> Z.
Variable gobold_TTF : list Byte.byte.  (* gobold.TTF, the embedded Go Bold font *)
(** [strings.Map(unicode.ToUpper, s)], the path of [strings.ToUpper] for a
    string with a byte outside ASCII. *)
Variable map_unicode_upper : string -> string.
(** The result of [int(x)] where Go leaves it to the implementation. *)
Variable int_unspecified : F64.float64 -> Z.

Abbreviation to_int := (F64.to_int int_unspecified).
Abbreviation floor_int := (F64.floor_int int_unspecified).

(** *** The output image *)

Inductive DrawOp :=
| DrawSrc (r : Rectangle) (c : RGBA)
    (* draw.Draw(out, r, &image.Uniform{c}, image.Point{}, draw.Src) *)
| DrawOver (r : Rectangle) (src : Image) (sp : Point)
    (* draw.Draw(out, r, src, sp, draw.Over) *)
| DrawString (face : Face) (src : RGBA) (dot : Point) (text : string).
    (* d.Src = image.NewUniform(src); d.Dot = fixed.P(dot); d.DrawString(text) *)

Record RGBAImage := { canvasRect : Rectangle; canvasOps : list DrawOp }.

Definition NewRGBA (r : Rectangle) : RGBAImage :=
  {| canvasRect := r; canvasOps := [] |}.

Definition draw (out : RGBAImage) (ops : list DrawOp) : RGBAImage :=
  {| canvasRect := canvasRect out; canvasOps := canvasOps out ++ ops |}.

(** *** Generator *)

(** The cache holds parsed fonts only: both places that write to it store
    the result of a successful [opentype.Parse], never [nil], so the test
    [ok && cachedFont != nil] of [loadFont] is the test for an entry. *)
Record Generator := { config : Config; fontCache : gmap string Font }.

Definition NewGenerator (cfg : option Config) : Generator :=
  let cfg := match cfg with
             | None => DefaultConfig
             | Some c => c
             end in
  {| config := cfg; fontCache := ∅ |}.

Definition toUpperSafe (s : string) : string :=
  GoStrings.ToUpper map_unicode_upper s.

(** *** loadFontFromFile (lines 254-296) *)

Definition loadFontFromFile (fs : FileSystem) (path : string)
  : result (list Byte.byte) * list Event :=
  match os_Stat fs path with
  | StatNotExist => (Err (ErrFontNotFound path), [EvStat path])
  | StatFailed e => (Err (ErrFontAccess e), [EvStat path])
  | StatSize size =>
      if size =? 0 then (Err ErrFontEmpty, [EvStat path])
      else if 10 * 1024 * 1024 <? size then (Err (ErrFontTooLarge size), [EvStat path])
      else
        match os_ReadFile fs path with
        | Err e => (Err (ErrFontRead e), [EvStat path; EvReadFile path])
        | Ok data =>
            if Z.of_nat (length data) <? 4
            then (Err ErrFontTooSmall, [EvStat path; EvReadFile path])
            else (Ok data, [EvStat path; EvReadFile path])
        end
  end.

(** *** loadFont (lines 180-251) *)

Definition faceOptions (size : F64.float64) : FaceOptions :=
  {| Size := size; DPI := F64.of_int 72; FaceHinting := HintingFull |}.

(** Lines 227-250: parse the bytes, cache the font when [FontPath] is set,
    build the face. *)
Definition parseAndFace (g : Generator) (fontBytes : list Byte.byte)
    (cacheKey : string) (size : F64.float64)
  : result Face * Generator * list Event :=
  let cfg := config g in
  match opentype_Parse fontBytes with
  | Err e => (Err (ErrFontParse e), g, [EvParse fontBytes])
  | Ok parsedFont =>
      let g' := if GoStrings.nonempty (FontPath cfg)
                then {| config := cfg;
                        fontCache := <[cacheKey := parsedFont]> (fontCache g) |}
                else g in
      match opentype_NewFace parsedFont (faceOptions size) with
      | Err e => (Err (ErrFace e), g', [EvParse fontBytes])
      | Ok face => (Ok face, g', [EvParse fontBytes])
      end
  end.

Definition loadFont (fs : FileSystem) (g : Generator) (size : F64.float64)
  : result Face * Generator * list Event :=
  let cfg := config g in
  if 0 <? Z.of_nat (length (FontData cfg)) then
    parseAndFace g (FontData cfg) "embedded_font_data" size
  else if GoStrings.nonempty (FontPath cfg) then
    let cacheKey := FontPath cfg in
    match fontCache g !! cacheKey with
    | Some cachedFont =>
        match opentype_NewFace cachedFont (faceOptions size) with
        | Err e => (Err (ErrFaceFromCache e), g, [])
        | Ok face => (Ok face, g, [])
        end
    | None =>
        match loadFontFromFile fs (FontPath cfg) with
        | (Err e, ev) => (Err e, g, ev)
        | (Ok fontBytes, ev) =>
            let '(r, g', ev') := parseAndFace g fontBytes cacheKey size in
            (r, g', ev ++ ev')
        end
    end
  else
    parseAndFace g gobold_TTF "gobold_embedded" size.

(** *** drawCenteredText (lines 339-377) *)

(** Lines 361-370: the outline passes, [dx] in the outer loop. *)
Definition outlinePasses (cfg : Config) (face : Face) (text : string) (x y : Z)
  : list DrawOp :=
  let w := TextOutlineWidth cfg in
  flat_map (fun dx =>
    flat_map (fun dy =>
      if (dx =? 0) && (dy =? 0) then []
      else [DrawString face (TextOutlineColor cfg)
              {| X := GoInt.add x dx; Y := GoInt.add y dy |} text])
      (int_range (GoInt.neg w) w))
    (int_range (GoInt.neg w) w).

(** The drawing calls of one caption. *)
Definition captionPasses (cfg : Config) (canvasWidth : Z) (face : Face)
    (text : string) (y : Z) : list DrawOp :=
  if GoStrings.nonempty text then
    let textWidth := MeasureString face text in
    let x := GoInt.quo (GoInt.sub canvasWidth textWidth) 2 in
    (if 0 <? TextOutlineWidth cfg then outlinePasses cfg face text x y else [])
    ++ [DrawString face (TextColor cfg) {| X := x; Y := y |} text]
  else [].

Definition drawCenteredText (cfg : Config) (img : RGBAImage) (face : Face)
    (text : string) (y : Z) : RGBAImage :=
  draw img (captionPasses cfg (Dx (canvasRect img)) face text y).

(** *** Generate (lines 88-177) *)

(** Lines 91-97: the captions as drawn. *)
Definition captions (cfg : Config) : string * string :=
  if TextUppercase cfg
  then (toUpperSafe (TopText cfg), toUpperSafe (BottomText cfg))
  else (TopText cfg, BottomText cfg).

(** Lines 107-114: the font size chosen from the image width. *)
Definition autoFontSize (imgWidth : Z) : F64.float64 :=
  let baseSize := F64.c48 in
  let scaleFactor := F64.div (F64.of_int imgWidth) F64.c800 in
  let scaleFactor :=
    if F64.ltb scaleFactor F64.c0_5 then F64.c0_5
    else if F64.ltb F64.c2_0 scaleFactor then F64.c2_0
    else scaleFactor in
  F64.mul baseSize scaleFactor.

(** Lines 104-115. *)
Definition effectiveFontSize (cfg : Config) (imgWidth : Z) : F64.float64 :=
  if AutoFontSize cfg then autoFontSize imgWidth else FontSize cfg.

(** Lines 118-124. *)
Definition textHeightOf (fontSize : F64.float64) (topText bottomText : string) : Z :=
  let textHeight := 0 in
  let textHeight :=
    if GoStrings.nonempty topText
    then GoInt.add textHeight (to_int (F64.mul fontSize F64.c1_5))
    else textHeight in
  let textHeight :=
    if GoStrings.nonempty bottomText
    then GoInt.add textHeight (to_int (F64.mul fontSize F64.c1_5))
    else textHeight in
  textHeight.

(** Lines 136-144: the nested border rectangles, outermost first. *)
Definition borderPasses (cfg : Config) (imgWidth imgHeight : Z) : list DrawOp :=
  List.map (fun i =>
    DrawSrc (Rect (GoInt.add (GoInt.sub (Padding cfg) (Border cfg)) i)
                  (GoInt.add (GoInt.sub (Padding cfg) (Border cfg)) i)
                  (GoInt.sub (GoInt.add (GoInt.add (Padding cfg) imgWidth) (Border cfg)) i)
                  (GoInt.sub (GoInt.add (GoInt.add (Padding cfg) imgHeight) (Border cfg)) i))
            (BorderColor cfg))
    (int_range 0 (Border cfg - 1)).

(** Lines 126-153: the canvas with background, border and image. *)
Definition compose (cfg : Config) (img : Image) (textHeight : Z) : RGBAImage :=
  let srcBounds := Bounds img in
  let imgWidth := Dx srcBounds in
  let imgHeight := Dy srcBounds in
  let resultWidth := GoInt.add imgWidth (GoInt.mul (Padding cfg) 2) in
  let resultHeight :=
    GoInt.add (GoInt.add imgHeight (GoInt.mul (Padding cfg) 2)) textHeight in
  let out := NewRGBA (Rect 0 0 resultWidth resultHeight) in
  let out := draw out [DrawSrc (canvasRect out) (BackgroundColor cfg)] in
  let out := draw out (borderPasses cfg imgWidth imgHeight) in
  draw out [DrawOver (Rect (Padding cfg) (Padding cfg)
                           (GoInt.add (Padding cfg) imgWidth)
                           (GoInt.add (Padding cfg) imgHeight))
                     img (Min srcBounds)].

(** Line 163: the baseline of the first caption drawn. *)
Definition firstBaseline (cfg : Config) (imgHeight : Z) (fontSize : F64.float64) : Z :=
  GoInt.add (GoInt.add (Padding cfg) imgHeight) (to_int (F64.mul fontSize F64.c0_8)).

(** Lines 166-169: the baseline after the top caption. *)
Definition nextBaseline (currentY : Z) (fontSize : F64.float64) (topText : string) : Z :=
  if GoStrings.nonempty topText
  then GoInt.add currentY (to_int (F64.mul fontSize F64.c1_2))
  else currentY.

(** Lines 162-174. *)
Definition drawCaptions (cfg : Config) (out : RGBAImage) (face : Face)
    (fontSize : F64.float64) (imgHeight : Z) (topText bottomText : string)
  : RGBAImage :=
  let currentY := firstBaseline cfg imgHeight fontSize in
  let out := if GoStrings.nonempty topText
             then drawCenteredText cfg out face topText currentY
             else out in
  let currentY := nextBaseline currentY fontSize topText in
  if GoStrings.nonempty bottomText
  then drawCenteredText cfg out face bottomText currentY
  else out.

Definition Generate (fs : FileSystem) (g : Generator) (img : Image)
  : (option RGBAImage * option error) * Generator * list Event :=
  let cfg := config g in
  let '(topText, bottomText) := captions cfg in
  let srcBounds := Bounds img in
  let imgWidth := Dx srcBounds in
  let imgHeight := Dy srcBounds in
  let fontSize := effectiveFontSize cfg imgWidth in
  let textHeight := textHeightOf fontSize topText bottomText in
  let out := compose cfg img textHeight in
  match loadFont fs g fontSize with
  | (Err err, g', ev) => ((None, Some (ErrLoadFont err)), g', ev)
  | (Ok fontFace, g', ev) =>
      ((Some (drawCaptions cfg out fontFace fontSize imgHeight topText bottomText),
        None), g', ev)
  end.

(** *** LoadFontFile, ClearFontCache, PreloadFont (lines 300-336) *)

Definition LoadFontFile (fs : FileSystem) (g : Generator) (path : string)
  : option error * Generator * list Event :=
  match loadFontFromFile fs path with
  | (Err err, ev) => (Some err, g, ev)
  | (Ok data, ev) =>
      (None,
       {| config := setFont path data (config g);
          fontCache := fontCache g |}, ev)
  end.


Definition PreloadFont (fs : FileSystem) (g : Generator) (path : string)
  : option error * Generator * list Event :=
  match loadFontFromFile fs path with
  | (Err err, ev) => (Some err, g, ev)
  | (Ok data, ev) =>
      match opentype_Parse data with
      | Err err => (Some (ErrPreloadParse err), g, ev ++ [EvParse data])
      | Ok parsedFont =>
          (None,
           {| config := config g;
              fontCache := <[path := parsedFont]> (fontCache g) |},
           ev ++ [EvParse data])
      end
  end.

(** *** Notions of the statements *)

(** The caption block height of lines 118-124, with the floor for [int]. *)
Definition captionTerm (fontSize : F64.float64) (text : string) : Z :=
  if GoStrings.nonempty text then floor_int (F64.mul fontSize F64.c1_5) else 0.


(** The face built from a font, a failure wrapped by [wrap]. *)
Definition faceOf (wrap : error -> error) (f : Font) (size : F64.float64) : result Face :=
  match opentype_NewFace f (faceOptions size) with
  | Err e => Err (wrap e)
  | Ok face => Ok face
  end.

(** What [Generate] returns for the outcome of [loadFont] (lines 156-176). *)
Definition resultOf (cfg : Config) (img : Image) (r : result Face)
  : option RGBAImage * option error :=
  let fontSize := effectiveFontSize cfg (Dx (Bounds img)) in
  match r with
  | Err e => (None, Some (ErrLoadFont e))
  | Ok face =>
      (Some (drawCaptions cfg
               (compose cfg img
                  (textHeightOf fontSize (fst (captions cfg)) (snd (captions cfg))))
               face fontSize (Dy (Bounds img))
               (fst (captions cfg)) (snd (captions cfg))), None)
  end.

(** The font file loads and parses. *)
Definition fontFileParses (fs : FileSystem) (path : string) : Prop :=
  exists data ev f,
    loadFontFromFile fs path = (Ok data, ev) /\ opentype_Parse data = Ok f.

(** *** Repeated calls *)

(** [n] consecutive calls of [Generate] on one generator, with the
    configuration, the file system and the image unchanged: what each call
    returned and asked of its collaborators, and the generator left. *)
Fixpoint GenerateN (fs : FileSystem) (g : Generator) (img : Image) (n : nat)
  : list ((option RGBAImage * option error) * list Event) * Generator :=
  match n with
  | O => ([], g)
  | S n' =>
      let '(r, g1, ev) := Generate fs g img in
      let '(rs, g2) := GenerateN fs g1 img n' in
      ((r, ev) :: rs, g2)
  end.

Definition isRead (e : Event) : bool :=
  match e with
  | EvReadFile _ => true
  | _ => false
  end.

(** How often the calls read a file from disk ([os.ReadFile]). *)
Definition fileReads (calls : list ((option RGBAImage * option error) * list Event)) : nat :=
  length (List.filter isRead (concat (List.map snd calls))).

(** *** Sequences of operations *)






(** What a call shows of itself: the canvas and error returned, the cache
    left, the collaborators asked. *)
Definition observable (r : (option RGBAImage * option error) * Generator * list Event)
  : (option RGBAImage * option error) * gmap string Font * list Event :=
  (fst (fst r), fontCache (snd (fst r)), snd r).

(** ** Properties of the layout *)

Lemma draw_rect out ops : canvasRect (draw out ops) = canvasRect out.
Proof. reflexivity. Qed.

Lemma compose_rect cfg img th :
  canvasRect (compose cfg img th) =
  Rect 0 0 (GoInt.add (Dx (Bounds img)) (GoInt.mul (Padding cfg) 2))
           (GoInt.add (GoInt.add (Dy (Bounds img)) (GoInt.mul (Padding cfg) 2)) th).
Proof. reflexivity. Qed.

Lemma compose_ops cfg img th :
  canvasOps (compose cfg img th) =
  DrawSrc (canvasRect (compose cfg img th)) (BackgroundColor cfg)
  :: borderPasses cfg (Dx (Bounds img)) (Dy (Bounds img))
  ++ [DrawOver (Rect (Padding cfg) (Padding cfg)
                     (GoInt.add (Padding cfg) (Dx (Bounds img)))
                     (GoInt.add (Padding cfg) (Dy (Bounds img))))
               img (Min (Bounds img))].
Proof. reflexivity. Qed.

Lemma captionPasses_empty cfg cw face text y :
  GoStrings.nonempty text = false -> captionPasses cfg cw face text y = [].
Proof. unfold captionPasses. now intros ->. Qed.

Lemma drawCaptions_rect cfg out face fontSize imgHeight top bottom :
  canvasRect (drawCaptions cfg out face fontSize imgHeight top bottom) = canvasRect out.
Proof.
  unfold drawCaptions.
  destruct (GoStrings.nonempty top), (GoStrings.nonempty bottom); reflexivity.
Qed.

Lemma drawCaptions_ops cfg out face fontSize imgHeight top bottom :
  canvasOps (drawCaptions cfg out face fontSize imgHeight top bottom) =
  canvasOps out
  ++ captionPasses cfg (Dx (canvasRect out)) face top
       (firstBaseline cfg imgHeight fontSize)
  ++ captionPasses cfg (Dx (canvasRect out)) face bottom
       (nextBaseline (firstBaseline cfg imgHeight fontSize) fontSize top).
Proof.
  unfold drawCaptions.
  destruct (GoStrings.nonempty top) eqn:Ht, (GoStrings.nonempty bottom) eqn:Hb;
    unfold drawCenteredText; simpl;
    rewrite ?(captionPasses_empty _ _ _ top) by assumption;
    rewrite ?(captionPasses_empty _ _ _ bottom) by assumption;
    rewrite ?app_nil_r, <- ?app_assoc; reflexivity.
Qed.

(** What a successful [Generate] returned. *)
Lemma Generate_ok fs g img out err g' ev :
  Generate fs g img = ((Some out, err), g', ev) ->
  exists face,
    loadFont fs g (effectiveFontSize (config g) (Dx (Bounds img))) = (Ok face, g', ev) /\
    err = None /\
    out = drawCaptions (config g)
            (compose (config g) img
               (textHeightOf (effectiveFontSize (config g) (Dx (Bounds img)))
                  (fst (captions (config g))) (snd (captions (config g)))))
            face (effectiveFontSize (config g) (Dx (Bounds img)))
            (Dy (Bounds img)) (fst (captions (config g))) (snd (captions (config g))).
Proof.
  unfold Generate. destruct (captions (config g)) as [top bottom]. simpl.
  destruct (loadFont fs g _) as [[[face | e] g1] ev1]; intros H; inversion H.
  subst. eauto.
Qed.

(** [Generate] succeeds exactly when [loadFont] does. *)
Lemma Generate_result fs g img :
  Generate fs g img =
  let cfg := config g in
  let fontSize := effectiveFontSize cfg (Dx (Bounds img)) in
  match loadFont fs g fontSize with
  | (Err e, g', ev) => ((None, Some (ErrLoadFont e)), g', ev)
  | (Ok face, g', ev) =>
      ((Some (drawCaptions cfg
                (compose cfg img
                   (textHeightOf fontSize (fst (captions cfg)) (snd (captions cfg))))
                face fontSize (Dy (Bounds img))
                (fst (captions cfg)) (snd (captions cfg))), None), g', ev)
  end.
Proof.
  unfold Generate. destruct (captions (config g)) as [top bottom]. reflexivity.
Qed.

Lemma wrap_wrap z : GoInt.wrap (GoInt.wrap z) = GoInt.wrap z.
Proof. apply GoInt.wrap_id, GoInt.wrap_range. Qed.


Lemma Rect_nonneg_Dy w h : 0 <= h -> Dy (Rect 0 0 w h) = GoInt.wrap h.
Proof.
  intros Hh. unfold Rect, Dy.
  destruct (h <? 0) eqn:E; [apply Z.ltb_lt in E; lia |].
  destruct (w <? 0); simpl; unfold GoInt.sub; now rewrite Z.sub_0_r.
Qed.

Lemma loadFont_config fs g size cfg2 :
  FontData cfg2 = FontData (config g) ->
  FontPath cfg2 = FontPath (config g) ->
  loadFont fs {| config := cfg2; fontCache := fontCache g |} size =
  let '(r, g', ev) := loadFont fs g size in
  (r, {| config := cfg2; fontCache := fontCache g' |}, ev).
Proof.
  intros Hd Hp. unfold loadFont, parseAndFace. simpl. rewrite Hd, Hp.
  destruct (0 <? Z.of_nat (length (FontData (config g)))).
  - destruct (opentype_Parse _); [| reflexivity].
    destruct (GoStrings.nonempty _), (opentype_NewFace _ _); reflexivity.
  - destruct (GoStrings.nonempty (FontPath (config g))) eqn:Hn.
    + destruct (fontCache g !! FontPath (config g)).
      * destruct (opentype_NewFace _ _); reflexivity.
      * destruct (loadFontFromFile _ _) as [[data | e] ev]; [| reflexivity].
        destruct (opentype_Parse _); [| reflexivity].
        destruct (opentype_NewFace _ _); reflexivity.
    + destruct (opentype_Parse _); [| reflexivity].
      destruct (opentype_NewFace _ _); reflexivity.
Qed.

Lemma captionPasses_config cfg cfg2 cw face text y :
  TextOutlineWidth cfg2 = TextOutlineWidth cfg ->
  TextOutlineColor cfg2 = TextOutlineColor cfg ->
  TextColor cfg2 = TextColor cfg ->
  captionPasses cfg2 cw face text y = captionPasses cfg cw face text y.
Proof.
  intros Hw Ho Hc. unfold captionPasses, outlinePasses. now rewrite Hw, Ho, Hc.
Qed.

Lemma textHeightOf_floor fontSize top bottom :
  F64.nonneg fontSize = true ->
  textHeightOf fontSize top bottom =
  GoInt.add (captionTerm fontSize top) (captionTerm fontSize bottom).
Proof.
  intros HF. unfold textHeightOf, captionTerm, F64.c1_5.
  rewrite (F64Facts.to_int_floor _ _ (F64Facts.mul_not_negative _ _ _ HF)).
  unfold GoInt.add.
  destruct (GoStrings.nonempty top), (GoStrings.nonempty bottom);
    rewrite ?Z.add_0_l, ?Z.add_0_r, ?GoInt.wrap_add_l, ?wrap_wrap; reflexivity.
Qed.

Lemma resultHeight_exact h p t :
  GoInt.add (GoInt.add h (GoInt.mul p 2)) (GoInt.wrap t) = GoInt.wrap (h + 2 * p + t).
Proof.
  unfold GoInt.add, GoInt.mul.
  rewrite GoInt.wrap_add_r, GoInt.wrap_add_l.
  replace (h + GoInt.wrap (p * 2) + t) with (h + t + GoInt.wrap (p * 2)) by lia.
  rewrite GoInt.wrap_add_r. f_equal. lia.
Qed.


(** C1, amended: for a font size [F >= 0] the canvas [Generate] returns is
    allocated with height [H + 2P + t], where [t] adds [floor(F * 1.5)] once
    for each caption that is non-empty as drawn, top and bottom
    independently; whenever that sum is a non-negative [int] it is the
    canvas height. *)
Theorem canvas_height_captions fs g img out err g' ev :
  Generate fs g img = ((Some out, err), g', ev) ->
  let cfg := config g in
  let W := Dx (Bounds img) in
  let H := Dy (Bounds img) in
  let P := Padding cfg in
  let F := effectiveFontSize cfg W in
  let t_top := captionTerm F (fst (captions cfg)) in
  let t_bottom := captionTerm F (snd (captions cfg)) in
  F64.nonneg F = true ->
  canvasRect out =
    Rect 0 0 (GoInt.add W (GoInt.mul P 2))
             (GoInt.add (GoInt.add H (GoInt.mul P 2)) (GoInt.add t_top t_bottom)) /\
  (0 <= H + 2 * P + t_top + t_bottom <= GoInt.max_int ->
   Dy (canvasRect out) = H + 2 * P + t_top + t_bottom).
Proof.
  intros HG cfg W H P F t_top t_bottom HF.
  destruct (Generate_ok _ _ _ _ _ _ _ HG) as (face & _ & _ & ->).
  rewrite drawCaptions_rect, compose_rect.
  fold cfg W H P F. rewrite (textHeightOf_floor _ _ _ HF). fold t_top t_bottom.
  split; [reflexivity |].
  intros Hr.
  change (GoInt.add t_top t_bottom) with (GoInt.wrap (t_top + t_bottom)).
  rewrite resultHeight_exact, Z.add_assoc.
  rewrite Rect_nonneg_Dy, wrap_wrap.
  - apply GoInt.wrap_id. unfold GoInt.min_int, GoInt.half. lia.
  - rewrite GoInt.wrap_id; unfold GoInt.min_int, GoInt.half; lia.
Qed.

(** C4: for a font size [F >= 0] the captions are drawn at the baselines
    [padding + imageHeight + floor(F * 0.8)] and, after a top caption, that
    plus [floor(F * 1.2)]; whatever border thickness is configured, the same
    call draws the same caption passes at the same baselines. *)
Theorem caption_baselines fs g img out err g' ev :
  Generate fs g img = ((Some out, err), g', ev) ->
  let cfg := config g in
  let H := Dy (Bounds img) in
  let F := effectiveFontSize cfg (Dx (Bounds img)) in
  let top := fst (captions cfg) in
  let bottom := snd (captions cfg) in
  let y1 := GoInt.add (GoInt.add (Padding cfg) H) (floor_int (F64.mul F F64.c0_8)) in
  let y2 := if GoStrings.nonempty top
            then GoInt.add y1 (floor_int (F64.mul F F64.c1_2))
            else y1 in
  F64.nonneg F = true ->
  exists face,
    canvasOps out =
      canvasOps (compose cfg img (textHeightOf F top bottom))
      ++ captionPasses cfg (Dx (canvasRect out)) face top y1
      ++ captionPasses cfg (Dx (canvasRect out)) face bottom y2 /\
    forall border, exists out_b,
      fst (fst (Generate fs {| config := setBorder border cfg;
                               fontCache := fontCache g |} img))
        = (Some out_b, None) /\
      canvasRect out_b = canvasRect out /\
      canvasOps out_b =
        canvasOps (compose (setBorder border cfg) img (textHeightOf F top bottom))
        ++ captionPasses cfg (Dx (canvasRect out)) face top y1
        ++ captionPasses cfg (Dx (canvasRect out)) face bottom y2.
Proof.
  intros HG cfg H F top bottom y1 y2 HF.
  destruct (Generate_ok _ _ _ _ _ _ _ HG) as (face & HL & _ & Hout).
  fold cfg H F top bottom in HL, Hout.
  assert (Hy1 : firstBaseline cfg H F = y1).
  { unfold firstBaseline, y1, F64.c0_8.
    now rewrite (F64Facts.to_int_floor _ _ (F64Facts.mul_not_negative _ _ _ HF)). }
  assert (Hy2 : nextBaseline y1 F top = y2).
  { unfold nextBaseline, y2, F64.c1_2.
    now rewrite (F64Facts.to_int_floor _ _ (F64Facts.mul_not_negative _ _ _ HF)). }
  exists face. split.
  - rewrite Hout, drawCaptions_ops, drawCaptions_rect, Hy1, Hy2. reflexivity.
  - intros border.
    rewrite Generate_result. cbv zeta.
    change (config {| config := setBorder border cfg; fontCache := fontCache g |})
      with (setBorder border cfg).
    change (effectiveFontSize (setBorder border cfg) (Dx (Bounds img))) with F.
    change (captions (setBorder border cfg)) with (captions cfg).
    fold top bottom H.
    rewrite (loadFont_config fs g F (setBorder border cfg)) by reflexivity.
    rewrite HL. simpl fst.
    eexists. split; [reflexivity |].
    rewrite drawCaptions_ops, !drawCaptions_rect.
    change (firstBaseline (setBorder border cfg) H F) with (firstBaseline cfg H F).
    rewrite Hy1, Hy2, Hout, !drawCaptions_rect.
    split; [reflexivity |].
    rewrite !(captionPasses_config cfg (setBorder border cfg)) by reflexivity.
    reflexivity.
Qed.

(** C10: [NewGenerator(nil)] holds [DefaultConfig()] (font size 48, padding
    80, border 10, outline width 6, uppercase and auto-size on, black
    background, white border and text, black outline) and an empty cache. *)
Theorem NewGenerator_nil :
  config (NewGenerator None) = DefaultConfig /\
  fontCache (NewGenerator None) = ∅ /\
  FontSize DefaultConfig = F64.of_int 48 /\
  Padding DefaultConfig = 80 /\
  Border DefaultConfig = 10 /\
  TextOutlineWidth DefaultConfig = 6 /\
  TextUppercase DefaultConfig = true /\
  AutoFontSize DefaultConfig = true /\
  BackgroundColor DefaultConfig = {| R := 0; G := 0; B := 0; A := 255 |} /\
  BorderColor DefaultConfig = {| R := 255; G := 255; B := 255; A := 255 |} /\
  TextColor DefaultConfig = {| R := 255; G := 255; B := 255; A := 255 |} /\
  TextOutlineColor DefaultConfig = {| R := 0; G := 0; B := 0; A := 255 |} /\
  TopText DefaultConfig = ""%string /\
  BottomText DefaultConfig = ""%string /\
  FontPath DefaultConfig = ""%string /\
  FontData DefaultConfig = [].
Proof. repeat split. Qed.

(** ** Properties of the text renderer *)

Lemma int_range_In lo hi z : In z (int_range lo hi) <-> lo <= z <= hi.
Proof.
  unfold int_range. rewrite in_map_iff. split.
  - intros (i & <- & Hi). apply in_seq in Hi. lia.
  - intros Hz. exists (Z.to_nat (z - lo)). split; [lia |].
    apply in_seq. lia.
Qed.


Lemma int_range_length lo hi :
  lo <= hi + 1 -> Z.of_nat (length (int_range lo hi)) = hi - lo + 1.
Proof. intros Hle. unfold int_range. rewrite length_map, length_seq. lia. Qed.








(** ** Properties of font resolution and the cache *)

(** [loadFont] when only [FontPath] is set. *)
Lemma loadFont_path fs g size :
  FontData (config g) = [] ->
  FontPath (config g) <> ""%string ->
  loadFont fs g size =
  match fontCache g !! FontPath (config g) with
  | Some f => (faceOf ErrFaceFromCache f size, g, [])
  | None =>
      match loadFontFromFile fs (FontPath (config g)) with
      | (Err e, ev) => (Err e, g, ev)
      | (Ok data, ev) =>
          match opentype_Parse data with
          | Err e => (Err (ErrFontParse e), g, ev ++ [EvParse data])
          | Ok f => (faceOf ErrFace f size,
                     {| config := config g;
                        fontCache := <[FontPath (config g) := f]> (fontCache g) |},
                     ev ++ [EvParse data])
          end
      end
  end.
Proof.
  intros Hd Hp. apply GoStrings.nonempty_true in Hp.
  unfold loadFont, parseAndFace, faceOf. rewrite Hd, Hp. simpl.
  destruct (fontCache g !! FontPath (config g)) as [f |].
  - destruct (opentype_NewFace f _); reflexivity.
  - destruct (loadFontFromFile _ _) as [[data | e] ev]; [| reflexivity].
    destruct (opentype_Parse data) as [f | e]; [| reflexivity].
    destruct (opentype_NewFace f _); reflexivity.
Qed.

(** [loadFont] when [FontPath] is empty: raw bytes or the embedded default. *)
Lemma loadFont_no_path fs g size :
  FontPath (config g) = ""%string ->
  loadFont fs g size =
  let bytes := if 0 <? Z.of_nat (length (FontData (config g)))
               then FontData (config g) else gobold_TTF in
  match opentype_Parse bytes with
  | Err e => (Err (ErrFontParse e), g, [EvParse bytes])
  | Ok f => (faceOf ErrFace f size, g, [EvParse bytes])
  end.
Proof.
  intros Hp. unfold loadFont, parseAndFace, faceOf. rewrite Hp. simpl.
  destruct (0 <? Z.of_nat (length (FontData (config g))));
    (destruct (opentype_Parse _) as [f | e]; [| reflexivity]);
    destruct (opentype_NewFace f _); reflexivity.
Qed.



Lemma Generate_resultOf fs g img :
  Generate fs g img =
  let '(r, g', ev) := loadFont fs g (effectiveFontSize (config g) (Dx (Bounds img))) in
  (resultOf (config g) img r, g', ev).
Proof.
  rewrite Generate_result. cbv zeta.
  destruct (loadFont fs g _) as [[[face | e] g1] ev]; reflexivity.
Qed.

Lemma resultOf_faceOf_canvas cfg img w1 w2 f size :
  fst (resultOf cfg img (faceOf w1 f size)) = fst (resultOf cfg img (faceOf w2 f size)).
Proof. unfold faceOf. destruct (opentype_NewFace f _); reflexivity. Qed.

Lemma GenerateN_stable fs g img r ev n :
  Generate fs g img = (r, g, ev) ->
  GenerateN fs g img n = (repeat (r, ev) n, g).
Proof.
  intros HG. induction n as [| n IH]; [reflexivity |].
  simpl. now rewrite HG, IH.
Qed.

Lemma fileReads_repeat_quiet r n : fileReads (repeat (r, []) n) = 0%nat.
Proof.
  unfold fileReads. induction n as [| n IH]; [reflexivity | exact IH].
Qed.

Lemma loadFromFile_ok_events fs path data ev :
  loadFontFromFile fs path = (Ok data, ev) -> ev = [EvStat path; EvReadFile path].
Proof.
  unfold loadFontFromFile.
  destruct (os_Stat fs path) as [| e | size]; try discriminate.
  destruct (size =? 0); [discriminate |].
  destruct (10 * 1024 * 1024 <? size); [discriminate |].
  destruct (os_ReadFile fs path) as [d | e]; [| discriminate].
  destruct (Z.of_nat (length d) <? 4); [discriminate |].
  now intros [= _ <-].
Qed.

(** A call that finds the font of [FontPath] in the cache. *)
Lemma Generate_cache_hit fs g img f :
  FontData (config g) = [] ->
  FontPath (config g) <> ""%string ->
  fontCache g !! FontPath (config g) = Some f ->
  Generate fs g img =
    (resultOf (config g) img
       (faceOf ErrFaceFromCache f (effectiveFontSize (config g) (Dx (Bounds img)))),
     g, []).
Proof.
  intros Hd Hp Hc. rewrite Generate_resultOf, (loadFont_path _ _ _ Hd Hp), Hc.
  reflexivity.
Qed.

Ltac in_repeat Hin :=
  simpl in Hin;
  repeat match type of Hin with
         | _ \/ _ => destruct Hin as [<- | Hin]; [reflexivity |]
         end;
  apply repeat_spec in Hin; subst; reflexivity.

(** C7, amended: over [N >= 1] consecutive [Generate] calls with [FontPath]
    set, [FontData] empty and nothing else changing, every call returns the
    same canvas; and when the font is cached already or its file loads and
    parses, the file is read from disk at most once: only the first call can
    reach the file system, the later calls take the font from the cache. *)
Theorem cached_font_calls fs g img n :
  FontData (config g) = [] ->
  FontPath (config g) <> ""%string ->
  let calls := fst (GenerateN fs g img (S n)) in
  (exists canvas, forall c, In c calls -> fst (fst c) = canvas) /\
  (is_Some (fontCache g !! FontPath (config g)) \/
   fontFileParses fs (FontPath (config g)) ->
   (fileReads calls <= 1)%nat /\ forall c, In c (tl calls) -> snd c = []).
Proof.
  intros Hd Hp calls. subst calls.
  set (F := effectiveFontSize (config g) (Dx (Bounds img))).
  destruct (fontCache g !! FontPath (config g)) as [f |] eqn:Hc.
  - (* cached from the start *)
    rewrite (GenerateN_stable _ _ _ _ _ (S n) (Generate_cache_hit _ _ _ _ Hd Hp Hc)).
    cbn [fst]. split.
    + eexists. intros c Hin. in_repeat Hin.
    + intros _. split.
      * rewrite fileReads_repeat_quiet. lia.
      * intros c Hin. in_repeat Hin.
  - pose proof (Generate_resultOf fs g img) as HG.
    rewrite (loadFont_path _ _ _ Hd Hp), Hc in HG. fold F in HG.
    destruct (loadFontFromFile fs (FontPath (config g))) as [[data | e] ev] eqn:Hl.
    + destruct (opentype_Parse data) as [f | e] eqn:Hparse.
      * (* loaded, parsed and cached by the first call *)
        set (g1 := {| config := config g;
                      fontCache := <[FontPath (config g) := f]> (fontCache g) |}) in *.
        assert (Hhit : fontCache g1 !! FontPath (config g1) = Some f)
          by apply lookup_insert_eq.
        pose proof (Generate_cache_hit fs g1 img f Hd Hp Hhit) as HG1.
        change (config g1) with (config g) in HG1. fold F in HG1.
        simpl. rewrite HG, (GenerateN_stable _ _ _ _ _ n HG1). cbn [fst].
        split.
        -- exists (fst (resultOf (config g) img (faceOf ErrFace f F))).
           intros c [<- | Hin]; [reflexivity |].
           apply repeat_spec in Hin. subst c. apply resultOf_faceOf_canvas.
        -- intros _. split.
           ++ unfold fileReads. simpl.
              rewrite (loadFromFile_ok_events _ _ _ _ Hl). simpl.
              change (length (List.filter isRead (concat (List.map snd
                        (repeat (resultOf (config g) img (faceOf ErrFaceFromCache f F),
                                 @nil Event) n)))))
                with (fileReads (repeat (resultOf (config g) img
                                           (faceOf ErrFaceFromCache f F), []) n)).
              rewrite fileReads_repeat_quiet. lia.
           ++ intros c Hin. in_repeat Hin.
      * (* the file does not parse: nothing is cached *)
        rewrite (GenerateN_stable _ _ _ _ _ (S n) HG). cbn [fst]. split.
        -- eexists. intros c Hin. in_repeat Hin.
        -- intros [[f Hf] | (d & ev' & f & Hl' & Hf)]; [discriminate |].
           congruence.
    + (* the file does not load: nothing is cached *)
      rewrite (GenerateN_stable _ _ _ _ _ (S n) HG). cbn [fst]. split.
      * eexists. intros c Hin. in_repeat Hin.
      * intros [[f Hf] | (d & ev' & f & Hl' & Hf)]; [discriminate | congruence].
Qed.

Lemma Generate_config fs g img : config (snd (fst (Generate fs g img))) = config g.
Proof.
  rewrite Generate_resultOf. unfold loadFont, parseAndFace.
  destruct (0 <? Z.of_nat (length (FontData (config g)))).
  - destruct (opentype_Parse _); [| reflexivity].
    destruct (GoStrings.nonempty _), (opentype_NewFace _ _); reflexivity.
  - destruct (GoStrings.nonempty (FontPath (config g))).
    + destruct (fontCache g !! FontPath (config g)).
      * destruct (opentype_NewFace _ _); reflexivity.
      * destruct (loadFontFromFile _ _) as [[data | e] ev]; [| reflexivity].
        destruct (opentype_Parse _); [| reflexivity].
        destruct (opentype_NewFace _ _); reflexivity.
    + destruct (opentype_Parse _); [| reflexivity].
      destruct (opentype_NewFace _ _); reflexivity.
Qed.






(** A font set as raw bytes together with a path is parsed from the bytes
    and stored in the cache under the fixed key of raw fonts. *)
Lemma raw_font_with_path_cached fs g size f :
  FontData (config g) <> [] ->
  FontPath (config g) <> ""%string ->
  opentype_Parse (FontData (config g)) = Ok f ->
  fontCache (snd (fst (loadFont fs g size))) =
    <["embedded_font_data"%string := f]> (fontCache g) /\
  snd (loadFont fs g size) = [EvParse (FontData (config g))].
Proof.
  intros Hd Hp Hparse. apply GoStrings.nonempty_true in Hp.
  unfold loadFont, parseAndFace.
  destruct (FontData (config g)) as [| b data] eqn:E; [contradiction |].
  change (0 <? Z.of_nat (length (b :: data))) with (0 <? Z.pos (Pos.of_succ_nat (length data))).
  simpl (0 <? Z.pos _). rewrite Hparse, Hp.
  destruct (opentype_NewFace f _); split; reflexivity.
Qed.


(** ** The uppercase transform *)

Lemma toUpperSafe_hello : toUpperSafe "hello" = "HELLO"%string.
Proof. reflexivity. Qed.

(** Two configurations that agree on everything but the captions and the
    uppercase flag, and draw the same captions, behave alike. *)
Lemma Generate_same_captions fs g img top1 bottom1 up1 top2 bottom2 up2 :
  captions (setCaptions top1 bottom1 up1 (config g)) =
  captions (setCaptions top2 bottom2 up2 (config g)) ->
  observable (Generate fs {| config := setCaptions top1 bottom1 up1 (config g);
                             fontCache := fontCache g |} img) =
  observable (Generate fs {| config := setCaptions top2 bottom2 up2 (config g);
                             fontCache := fontCache g |} img).
Proof.
  intros Hcap. rewrite !Generate_resultOf.
  rewrite !(loadFont_config fs g _ (setCaptions _ _ _ (config g))) by reflexivity.
  change (config {| config := setCaptions top1 bottom1 up1 (config g);
                    fontCache := fontCache g |})
    with (setCaptions top1 bottom1 up1 (config g)).
  change (config {| config := setCaptions top2 bottom2 up2 (config g);
                    fontCache := fontCache g |})
    with (setCaptions top2 bottom2 up2 (config g)).
  change (effectiveFontSize (setCaptions top1 bottom1 up1 (config g)) (Dx (Bounds img)))
    with (effectiveFontSize (config g) (Dx (Bounds img))).
  change (effectiveFontSize (setCaptions top2 bottom2 up2 (config g)) (Dx (Bounds img)))
    with (effectiveFontSize (config g) (Dx (Bounds img))).
  destruct (loadFont fs g _) as [[r g1] ev]. unfold observable. simpl.
  f_equal. f_equal. unfold resultOf. rewrite Hcap.
  destruct r; reflexivity.
Qed.

(** C9, amended: when the other caption is unchanged by the uppercase
    transform, [Generate] with [TextUppercase = true] and the caption "hello"
    returns the same canvas (and error, cache and collaborator calls) as with
    [TextUppercase = false] and the caption "HELLO"; with
    [TextUppercase = false] the caption "hello" is drawn as it is. *)
Theorem uppercase_hello fs g img :
  let cfg := config g in
  let gen c := observable (Generate fs {| config := c; fontCache := fontCache g |} img) in
  (forall bottom, toUpperSafe bottom = bottom ->
     gen (setCaptions "hello" bottom true cfg) = gen (setCaptions "HELLO" bottom false cfg)) /\
  (forall top, toUpperSafe top = top ->
     gen (setCaptions top "hello" true cfg) = gen (setCaptions top "HELLO" false cfg)) /\
  (forall bottom,
     captions (setCaptions "hello" bottom false cfg) = ("hello"%string, bottom) /\
     forall out, fst (fst (fst (gen (setCaptions "hello" bottom false cfg)))) = Some out ->
       exists face x y,
         In (DrawString face (TextColor cfg) {| X := x; Y := y |} "hello")
            (canvasOps out)).
Proof.
  intros cfg gen. split; [| split].
  - intros bottom Hb. apply Generate_same_captions.
    unfold captions. simpl. now rewrite Hb.
  - intros top Ht. apply Generate_same_captions.
    unfold captions. simpl. now rewrite Ht.
  - intros bottom. split; [reflexivity |].
    intros out. unfold gen, observable. cbn [fst].
    destruct (Generate fs _ img) as [[[o e] g1] ev] eqn:HG. cbn [fst]. intros ->.
    destruct (Generate_ok _ _ _ _ _ _ _ HG) as (face & _ & _ & ->).
    rewrite drawCaptions_ops.
    exists face. do 2 eexists.
    apply in_or_app. right. apply in_or_app. left.
    unfold captionPasses. simpl. apply in_or_app. right. left. reflexivity.
Qed.

(** * The rest of the package *)

(** *** GetAvailableFonts (lines 427-432) *)

Variable goregular_TTF : list Byte.byte.  (* goregular.TTF, the embedded Go Regular font *)

Definition GetAvailableFonts : gmap string (list Byte.byte) :=
  <["regular"%string := goregular_TTF]> (<["bold"%string := gobold_TTF]> ∅).

(** *** ValidateFontFile (lines 406-424) *)

(** The three failures of [ValidateFontFile], each with a message of its own. *)
Inductive validateError :=
| ErrValidateRead (cause : error)    (* os.ReadFile failed *)
| ErrValidateTooSmall                (* fewer than 4 bytes *)
| ErrValidateParse (cause : error).  (* opentype.Parse failed *)

Definition ValidateFontFile (fs : FileSystem) (path : string)
  : option validateError * list Event :=
  match os_ReadFile fs path with
  | Err err => (Some (ErrValidateRead err), [EvReadFile path])
  | Ok data =>
      if Z.of_nat (length data) <? 4
      then (Some ErrValidateTooSmall, [EvReadFile path])
      else
        match opentype_Parse data with
        | Err err => (Some (ErrValidateParse err), [EvReadFile path; EvParse data])
        | Ok _ => (None, [EvReadFile path; EvParse data])
        end
  end.

(** *** GenerateWithText, GenerateWithCustomFont (lines 385-403) *)





(** *** Notions of the statements *)

(** The size limit of [loadFontFromFile]. *)
Definition maxFontFileSize : Z := 10 * 1024 * 1024.

(** ** Properties of file loading *)

(** [loadFontFromFile] returns the bytes of a file exactly when [os.Stat]
    reports a size other than 0 and of at most 10 MiB, [os.ReadFile]
    succeeds and yields at least 4 bytes; the bytes come back as read,
    whatever signature they start with. *)
Theorem loadFontFromFile_ok_iff fs path data ev :
  loadFontFromFile fs path = (Ok data, ev) <->
  (exists size, os_Stat fs path = StatSize size /\ size <> 0 /\ size <= maxFontFileSize) /\
  os_ReadFile fs path = Ok data /\
  (4 <= length data)%nat /\
  ev = [EvStat path; EvReadFile path].
Proof.
  unfold loadFontFromFile, maxFontFileSize. split.
  - destruct (os_Stat fs path) as [| e | size]; try discriminate.
    destruct (Z.eqb_spec size 0); [discriminate |].
    destruct (Z.ltb_spec (10 * 1024 * 1024) size); [discriminate |].
    destruct (os_ReadFile fs path) as [d | e]; [| discriminate].
    destruct (Z.ltb_spec (Z.of_nat (length d)) 4); [discriminate |].
    intros [= -> <-]. repeat split; eauto. lia.
  - intros ((size & -> & Hne & Hle) & -> & Hlen & ->).
    destruct (Z.eqb_spec size 0); [contradiction |].
    destruct (Z.ltb_spec (10 * 1024 * 1024) size); [lia |].
    destruct (Z.ltb_spec (Z.of_nat (length data)) 4); [lia | reflexivity].
Qed.

(** [loadFontFromFile] reads the file exactly when [os.Stat] reports a size
    other than 0 and of at most 10 MiB: a missing, inaccessible, empty or
    oversized file is never opened. *)
Theorem loadFontFromFile_reads_iff fs path :
  In (EvReadFile path) (snd (loadFontFromFile fs path)) <->
  exists size, os_Stat fs path = StatSize size /\ size <> 0 /\ size <= maxFontFileSize.
Proof.
  unfold loadFontFromFile, maxFontFileSize.
  destruct (os_Stat fs path) as [| e | size].
  - simpl. split; [intros [Hin | []]; discriminate | intros (? & ? & _); discriminate].
  - simpl. split; [intros [Hin | []]; discriminate | intros (? & ? & _); discriminate].
  - destruct (Z.eqb_spec size 0).
    + simpl. split; [intros [Hin | []]; discriminate |].
      intros (sz & [= <-] & Hne & _). contradiction.
    + destruct (Z.ltb_spec (10 * 1024 * 1024) size).
      * simpl. split; [intros [Hin | []]; discriminate |].
        intros (sz & [= <-] & _ & Hle). lia.
      * split; [intros _; exists size; repeat split; [assumption | lia] |].
        intros _.
        destruct (os_ReadFile fs path) as [d | e];
          [destruct (Z.of_nat (length d) <? 4) |]; simpl; auto.
Qed.

(** ** Properties of [Generate] as a whole *)


(** What a call can do to the cache. *)
Lemma Generate_cache_cases fs g img :
  let g' := snd (fst (Generate fs g img)) in
  fontCache g' = fontCache g \/
  (exists f, fontCache g' = <["embedded_font_data"%string := f]> (fontCache g)) \/
  (exists f, fontCache g !! FontPath (config g) = None /\
             fontCache g' = <[FontPath (config g) := f]> (fontCache g)).
Proof.
  cbv zeta. rewrite Generate_resultOf. unfold loadFont, parseAndFace.
  destruct (0 <? Z.of_nat (length (FontData (config g)))).
  - destruct (opentype_Parse _) as [f0 | e]; [| simpl; auto].
    destruct (GoStrings.nonempty _), (opentype_NewFace _ _); simpl; eauto.
  - destruct (GoStrings.nonempty (FontPath (config g))).
    + destruct (fontCache g !! FontPath (config g)) as [f0 |] eqn:Hc.
      * destruct (opentype_NewFace _ _); simpl; auto.
      * destruct (loadFontFromFile _ _) as [[data | e] ev]; [| simpl; auto].
        destruct (opentype_Parse _) as [f1 | e]; [| simpl; auto].
        destruct (opentype_NewFace _ _); simpl; eauto.
    + destruct (opentype_Parse _) as [f0 | e]; [| simpl; auto].
      destruct (opentype_NewFace _ _); simpl; auto.
Qed.

(** [Generate] never changes the configuration, never removes a font from
    the cache, never replaces a font stored under a path, and touches no
    cache key other than [FontPath] and the key of raw fonts. *)
Theorem Generate_keeps_cache fs g img :
  let g' := snd (fst (Generate fs g img)) in
  config g' = config g /\
  (forall k f, k <> "embedded_font_data"%string ->
     fontCache g !! k = Some f -> fontCache g' !! k = Some f) /\
  (forall k, is_Some (fontCache g !! k) -> is_Some (fontCache g' !! k)) /\
  (forall k, k <> FontPath (config g) -> k <> "embedded_font_data"%string ->
     fontCache g' !! k = fontCache g !! k).
Proof.
  cbv zeta. split; [apply Generate_config |].
  destruct (Generate_cache_cases fs g img) as [-> | [[f0 ->] | (f0 & Hnone & ->)]].
  - auto.
  - split; [| split].
    + intros k f Hk Hl. now rewrite lookup_insert_ne by congruence.
    + intros k Hs. destruct (decide ("embedded_font_data"%string = k)) as [<- | Hne];
        [rewrite lookup_insert_eq; eauto | now rewrite lookup_insert_ne].
    + intros k _ Hk. now rewrite lookup_insert_ne by congruence.
  - split; [| split].
    + intros k f _ Hl. destruct (decide (FontPath (config g) = k)) as [<- | Hne];
        [congruence | now rewrite lookup_insert_ne].
    + intros k Hs. destruct (decide (FontPath (config g) = k)) as [<- | Hne];
        [rewrite lookup_insert_eq; eauto | now rewrite lookup_insert_ne].
    + intros k Hk _. now rewrite lookup_insert_ne by congruence.
Qed.




(** ** Properties of [PreloadFont], [LoadFontFile] and [ValidateFontFile] *)

(** [PreloadFont] changes nothing but the cache entry of its path, which it
    sets when it succeeds; when it fails the generator is as it was. *)
Theorem PreloadFont_effects fs g path :
  let err := fst (fst (PreloadFont fs g path)) in
  let g1 := snd (fst (PreloadFont fs g path)) in
  config g1 = config g /\
  (forall k, k <> path -> fontCache g1 !! k = fontCache g !! k) /\
  (err <> None -> g1 = g) /\
  (err = None -> is_Some (fontCache g1 !! path)).
Proof.
  cbv zeta. unfold PreloadFont.
  destruct (loadFontFromFile fs path) as [[data | e] ev]; simpl.
  - destruct (opentype_Parse data) as [f | e]; simpl.
    + repeat split; try congruence.
      * intros k Hk. now rewrite lookup_insert_ne by congruence.
      * intros _. rewrite lookup_insert_eq. eauto.
    + repeat split; congruence.
  - repeat split; congruence.
Qed.



(** [PreloadFont] accepts a file exactly when [ValidateFontFile] accepts it
    and [os.Stat] reports a size other than 0 and of at most 10 MiB: the two
    differ only in the size checks, which [ValidateFontFile] does not make. *)
Theorem PreloadFont_ok_iff fs g path :
  fst (fst (PreloadFont fs g path)) = None <->
  fst (ValidateFontFile fs path) = None /\
  exists size, os_Stat fs path = StatSize size /\ size <> 0 /\ size <= maxFontFileSize.
Proof.
  unfold PreloadFont, ValidateFontFile. split.
  - destruct (loadFontFromFile fs path) as [[data | e] ev] eqn:Hl; [| discriminate].
    apply loadFontFromFile_ok_iff in Hl as (Hstat & -> & Hlen & _).
    destruct (Z.ltb_spec (Z.of_nat (length data)) 4); [lia |].
    destruct (opentype_Parse data); [split; [reflexivity | exact Hstat] | discriminate].
  - intros [Hv Hstat].
    destruct (os_ReadFile fs path) as [data | e] eqn:Hread; [| discriminate].
    destruct (Z.ltb_spec (Z.of_nat (length data)) 4); [discriminate |].
    assert (Hl : loadFontFromFile fs path = (Ok data, [EvStat path; EvReadFile path])).
    { apply loadFontFromFile_ok_iff. repeat split; [exact Hstat | exact Hread | lia]. }
    rewrite Hl. destruct (opentype_Parse data); [reflexivity | discriminate].
Qed.

(** ** Properties of the convenience functions *)




(** ** Further properties of the text renderer *)

Lemma captionPasses_fill cfg cw face text y :
  GoStrings.nonempty text = true ->
  exists outline,
    captionPasses cfg cw face text y =
    outline ++ [DrawString face (TextColor cfg)
                  {| X := GoInt.quo (GoInt.sub cw (MeasureString face text)) 2; Y := y |}
                  text] /\
    (TextOutlineWidth cfg <= 0 -> outline = []).
Proof.
  intros Ht. unfold captionPasses. rewrite Ht. eexists. split; [reflexivity |].
  intros Hw. destruct (Z.ltb_spec 0 (TextOutlineWidth cfg)); [lia | reflexivity].
Qed.

(** [drawCenteredText] never changes the rectangle of the canvas and only
    adds drawing calls after those made before; for an empty text it adds
    none, and for an outline width of zero or less just the fill pass. *)
Theorem drawCenteredText_effects cfg img face text y :
  canvasRect (drawCenteredText cfg img face text y) = canvasRect img /\
  exists passes,
    canvasOps (drawCenteredText cfg img face text y) = canvasOps img ++ passes /\
    (text = ""%string -> passes = []) /\
    (text <> ""%string -> TextOutlineWidth cfg <= 0 ->
     passes = [DrawString face (TextColor cfg)
                 {| X := GoInt.quo (GoInt.sub (Dx (canvasRect img))
                                      (MeasureString face text)) 2;
                    Y := y |} text]).
Proof.
  split; [reflexivity |]. eexists. split; [reflexivity |]. split.
  - intros ->. reflexivity.
  - intros Ht Hw. apply GoStrings.nonempty_true in Ht.
    destruct (captionPasses_fill cfg (Dx (canvasRect img)) face text y Ht)
      as (outline & -> & Hnone).
    now rewrite (Hnone Hw).
Qed.

(** A caption is centred: its fill pass, the last of its passes, starts at
    [x = (canvasWidth - textWidth) / 2].  For a text no wider than the
    canvas the margins left and right of it differ by at most one pixel; a
    wider text is not clipped and sticks out on both sides. *)
Theorem caption_is_centred cfg cw face text y d :
  text <> ""%string ->
  0 <= cw <= GoInt.max_int ->
  0 <= MeasureString face text <= GoInt.max_int ->
  let tw := MeasureString face text in
  let x := GoInt.quo (GoInt.sub cw tw) 2 in
  List.last (captionPasses cfg cw face text y) d =
    DrawString face (TextColor cfg) {| X := x; Y := y |} text /\
  (tw <= cw -> 0 <= x /\ x + tw <= cw /\ 0 <= (cw - (x + tw)) - x <= 1) /\
  (cw < tw -> x <= 0 /\ cw <= x + tw).
Proof.
  intros Ht Hcw Htw tw x. apply GoStrings.nonempty_true in Ht.
  destruct (captionPasses_fill cfg cw face text y Ht) as (outline & -> & _).
  fold tw. fold x. split; [apply List.last_last |].
  assert (Hx : x = Z.quot (cw - tw) 2).
  { unfold x, GoInt.quo, GoInt.sub. fold tw in Htw.
    unfold GoInt.max_int, GoInt.half in *.
    rewrite (GoInt.wrap_id (cw - tw)) by (unfold GoInt.min_int, GoInt.max_int, GoInt.half; lia).
    apply GoInt.wrap_id. unfold GoInt.min_int, GoInt.max_int, GoInt.half.
    pose proof (Z.quot_rem' (cw - tw) 2) as Hqr.
    destruct (Z_le_gt_dec 0 (cw - tw)) as [Hpos | Hneg].
    - pose proof (Z.rem_bound_pos (cw - tw) 2 Hpos ltac:(lia)). lia.
    - pose proof (Z.rem_bound_pos_neg (cw - tw) 2 ltac:(lia) ltac:(lia)). lia. }
  pose proof (Z.quot_rem' (cw - tw) 2) as Hqr. rewrite <- Hx in Hqr.
  split; intros Hcmp.
  - pose proof (Z.rem_bound_pos (cw - tw) 2 ltac:(lia) ltac:(lia)). lia.
  - pose proof (Z.rem_bound_pos_neg (cw - tw) 2 ltac:(lia) ltac:(lia)). lia.
Qed.

(** ** Properties of the compositor *)

(** The border is a band of [Border] pixels around the image, painted from
    the outside in: pass [i] fills the rectangle of the image grown by
    [Border - i] pixels on every side (stated for sizes below 2^60, where
    no sum wraps). *)
Theorem border_ring cfg W H :
  let P := Padding cfg in
  let B := Border cfg in
  let M := 2 ^ 60 in
  0 <= B <= M -> - M <= P <= M -> 0 <= W <= M -> 0 <= H <= M ->
  borderPasses cfg W H =
    List.map (fun i =>
                DrawSrc {| Min := {| X := P - (B - i); Y := P - (B - i) |};
                           Max := {| X := P + W + (B - i); Y := P + H + (B - i) |} |}
                        (BorderColor cfg))
             (int_range 0 (B - 1)) /\
  Z.of_nat (length (borderPasses cfg W H)) = B.
Proof.
  intros P B M HB HP HW HH. unfold M in *.
  change (2 ^ 60) with 1152921504606846976 in *.
  split.
  - unfold borderPasses. fold P B. apply map_ext_in. intros i Hi.
    apply int_range_In in Hi.
    unfold GoInt.add, GoInt.sub.
    rewrite (GoInt.wrap_id (P - B)) by (unfold GoInt.min_int, GoInt.max_int, GoInt.half; lia).
    rewrite (GoInt.wrap_id (P - B + i)) by (unfold GoInt.min_int, GoInt.max_int, GoInt.half; lia).
    rewrite (GoInt.wrap_id (P + W)) by (unfold GoInt.min_int, GoInt.max_int, GoInt.half; lia).
    rewrite (GoInt.wrap_id (P + H)) by (unfold GoInt.min_int, GoInt.max_int, GoInt.half; lia).
    rewrite (GoInt.wrap_id (P + W + B)) by (unfold GoInt.min_int, GoInt.max_int, GoInt.half; lia).
    rewrite (GoInt.wrap_id (P + H + B)) by (unfold GoInt.min_int, GoInt.max_int, GoInt.half; lia).
    rewrite (GoInt.wrap_id (P + W + B - i)) by (unfold GoInt.min_int, GoInt.max_int, GoInt.half; lia).
    rewrite (GoInt.wrap_id (P + H + B - i)) by (unfold GoInt.min_int, GoInt.max_int, GoInt.half; lia).
    unfold Rect.
    destruct (Z.ltb_spec (P + W + B - i) (P - B + i)); [lia |].
    destruct (Z.ltb_spec (P + H + B - i) (P - B + i)); [lia |].
    f_equal. f_equal; f_equal; lia.
  - unfold borderPasses. rewrite length_map. fold B.
    rewrite int_range_length by lia. lia.
Qed.

Lemma captionPasses_strings cfg cw face text y op :
  In op (captionPasses cfg cw face text y) ->
  exists src dot, op = DrawString face src dot text.
Proof.
  unfold captionPasses. destruct (GoStrings.nonempty text); [| intros []].
  intros Hin. apply in_app_or in Hin as [Hin | [<- | []]]; [| eauto].
  destruct (0 <? TextOutlineWidth cfg); [| destruct Hin].
  unfold outlinePasses in Hin. apply in_flat_map in Hin as (dx & _ & Hin).
  apply in_flat_map in Hin as (dy & _ & Hin).
  destruct ((dx =? 0) && (dy =? 0)); [destruct Hin |].
  destruct Hin as [<- | []]. eauto.
Qed.

(** The canvas is painted back to front: the first drawing call fills the
    whole canvas with the background colour, the border passes follow, then
    the image is composited at offset (padding, padding) from the origin of
    its own bounds, and only then come the caption passes, all of them
    string drawings. *)
Theorem painting_order fs g img out err g' ev :
  Generate fs g img = ((Some out, err), g', ev) ->
  let cfg := config g in
  let W := Dx (Bounds img) in
  let H := Dy (Bounds img) in
  exists text_passes,
    canvasOps out =
      [DrawSrc (canvasRect out) (BackgroundColor cfg)]
      ++ borderPasses cfg W H
      ++ [DrawOver (Rect (Padding cfg) (Padding cfg)
                         (GoInt.add (Padding cfg) W) (GoInt.add (Padding cfg) H))
                   img (Min (Bounds img))]
      ++ text_passes /\
    forall op, In op text_passes ->
      exists face src dot text,
        op = DrawString face src dot text /\
        (text = fst (captions cfg) \/ text = snd (captions cfg)).
Proof.
  intros HG cfg W H.
  destruct (Generate_ok _ _ _ _ _ _ _ HG) as (face & _ & _ & ->). fold cfg W H.
  rewrite drawCaptions_ops, drawCaptions_rect, compose_ops. fold W H.
  eexists. split.
  - cbn [app]. rewrite <- app_assoc. reflexivity.
  - intros op Hin. apply in_app_or in Hin as [Hin | Hin];
      apply captionPasses_strings in Hin as (src & dot & ->);
      exists face, src, dot; eauto.
Qed.

(** The size of the canvas depends on the captions only through their being
    empty or not: two configurations that differ in the captions, but not in
    which of them are drawn, give canvases with the same rectangle. *)
Theorem canvas_ignores_caption_text fs g img top1 bottom1 up1 top2 bottom2 up2 out1 :
  let cfg1 := setCaptions top1 bottom1 up1 (config g) in
  let cfg2 := setCaptions top2 bottom2 up2 (config g) in
  GoStrings.nonempty (fst (captions cfg1)) = GoStrings.nonempty (fst (captions cfg2)) ->
  GoStrings.nonempty (snd (captions cfg1)) = GoStrings.nonempty (snd (captions cfg2)) ->
  fst (fst (Generate fs {| config := cfg1; fontCache := fontCache g |} img))
    = (Some out1, None) ->
  exists out2,
    fst (fst (Generate fs {| config := cfg2; fontCache := fontCache g |} img))
      = (Some out2, None) /\
    canvasRect out2 = canvasRect out1.
Proof.
  intros cfg1 cfg2 Ht Hb. rewrite !Generate_resultOf.
  rewrite (loadFont_config fs g _ cfg1), (loadFont_config fs g _ cfg2) by reflexivity.
  change (config {| config := cfg1; fontCache := fontCache g |}) with cfg1.
  change (config {| config := cfg2; fontCache := fontCache g |}) with cfg2.
  change (effectiveFontSize cfg1 (Dx (Bounds img)))
    with (effectiveFontSize (config g) (Dx (Bounds img))).
  change (effectiveFontSize cfg2 (Dx (Bounds img)))
    with (effectiveFontSize (config g) (Dx (Bounds img))).
  destruct (loadFont fs g _) as [[[face | e] g1] ev]; simpl; [| discriminate].
  intros [= <-]. eexists. split; [reflexivity |].
  rewrite !drawCaptions_rect, !compose_rect.
  change (effectiveFontSize cfg1 (Dx (Bounds img)))
    with (effectiveFontSize (config g) (Dx (Bounds img))).
  change (effectiveFontSize cfg2 (Dx (Bounds img)))
    with (effectiveFontSize (config g) (Dx (Bounds img))).
  change (Padding cfg1) with (Padding (config g)).
  change (Padding cfg2) with (Padding (config g)).
  unfold textHeightOf. now rewrite Ht, Hb.
Qed.

(** ** Properties of [toUpperSafe] and [GetAvailableFonts] *)

Lemma upper_byte_facts c :
  GoStrings.is_ascii c = true ->
  GoStrings.is_ascii (GoStrings.upper_byte c) = true /\
  GoStrings.is_lower (GoStrings.upper_byte c) = false /\
  (GoStrings.is_lower c = false -> GoStrings.upper_byte c = c).
Proof.
  destruct c as [[] [] [] [] [] [] [] []]; vm_compute; intros H;
    try discriminate; repeat split; intros; discriminate.
Qed.

Lemma ToUpper_ascii s :
  GoStrings.all_bytes GoStrings.is_ascii s = true ->
  toUpperSafe s = GoStrings.map_bytes GoStrings.upper_byte s.
Proof.
  intros Ha. unfold toUpperSafe, GoStrings.ToUpper. rewrite Ha.
  destruct (GoStrings.any_byte GoStrings.is_lower s) eqn:Hl; [reflexivity |].
  induction s as [| c r IH]; [reflexivity |].
  simpl in *. apply andb_true_iff in Ha as [Hc Hr].
  apply orb_false_iff in Hl as [Hlc Hlr].
  rewrite <- (IH Hr Hlr). f_equal.
  symmetry. now apply upper_byte_facts.
Qed.

Lemma map_upper_facts s :
  GoStrings.all_bytes GoStrings.is_ascii s = true ->
  let u := GoStrings.map_bytes GoStrings.upper_byte s in
  String.length u = String.length s /\
  GoStrings.all_bytes GoStrings.is_ascii u = true /\
  GoStrings.any_byte GoStrings.is_lower u = false.
Proof.
  induction s as [| c r IH]; intros Ha; [repeat split |].
  simpl in Ha. apply andb_true_iff in Ha as [Hc Hr].
  destruct (IH Hr) as (Hlen & Hasc & Hlow).
  destruct (upper_byte_facts c Hc) as (Hc1 & Hc2 & _).
  cbv zeta. simpl. rewrite Hlen, Hasc, Hlow, Hc1, Hc2. repeat split.
Qed.

(** On a string of ASCII bytes [toUpperSafe] keeps the length (so an empty
    caption stays empty and a non-empty one non-empty), leaves no lower-case
    letter, and applied again changes nothing. *)
Theorem toUpperSafe_ascii s :
  GoStrings.all_bytes GoStrings.is_ascii s = true ->
  let u := toUpperSafe s in
  String.length u = String.length s /\
  GoStrings.nonempty u = GoStrings.nonempty s /\
  GoStrings.all_bytes GoStrings.is_ascii u = true /\
  GoStrings.any_byte GoStrings.is_lower u = false /\
  toUpperSafe u = u.
Proof.
  intros Ha. cbv zeta. rewrite (ToUpper_ascii s Ha).
  destruct (map_upper_facts s Ha) as (Hlen & Hasc & Hlow).
  split; [exact Hlen |]. split; [apply GoStrings.map_bytes_nonempty |].
  split; [exact Hasc |]. split; [exact Hlow |].
  unfold toUpperSafe, GoStrings.ToUpper. now rewrite Hasc, Hlow.
Qed.

(** [GetAvailableFonts] offers exactly the names "regular" and "bold", and
    its "bold" font is the one [Generate] uses when no font is configured:
    setting it as [FontData] changes nothing of what a call returns, caches
    or asks of its collaborators. *)
Theorem bold_is_the_default_font fs g img bytes :
  FontData (config g) = [] ->
  FontPath (config g) = ""%string ->
  GetAvailableFonts !! "bold"%string = Some bytes ->
  (forall name, is_Some (GetAvailableFonts !! name) <->
                name = "regular"%string \/ name = "bold"%string) /\
  observable (Generate fs {| config := setFont "" bytes (config g);
                             fontCache := fontCache g |} img) =
  observable (Generate fs g img).
Proof.
  intros Hd Hp Hb. unfold GetAvailableFonts in *. split.
  - intros name. destruct (decide ("regular"%string = name)) as [<- | Hr].
    + rewrite lookup_insert_eq. split; eauto.
    + rewrite lookup_insert_ne by assumption.
      destruct (decide ("bold"%string = name)) as [<- | Hbo].
      * rewrite lookup_insert_eq. split; eauto.
      * rewrite lookup_insert_ne, lookup_empty by assumption.
        split; [intros [x Hx]; discriminate | intros [-> | ->]; congruence].
  - rewrite lookup_insert_ne, lookup_insert_eq in Hb by discriminate.
    injection Hb as <-.
    rewrite !Generate_resultOf, !loadFont_no_path by (try exact Hp; reflexivity).
    cbv zeta. simpl. rewrite Hd. simpl.
    change (effectiveFontSize (setFont "" gobold_TTF (config g)) (Dx (Bounds img)))
      with (effectiveFontSize (config g) (Dx (Bounds img))).
    destruct (0 <? Z.of_nat (length gobold_TTF));
      destruct (opentype_Parse gobold_TTF) as [f | e]; unfold observable; simpl;
      try reflexivity;
      unfold faceOf, resultOf; destruct (opentype_NewFace f _); reflexivity.
Qed.

End Meme.


(** * The automatic font size *)

Module AutoSize.

(** Structural equality of floats, to check tables by computation. *)
Definition feqb (x y : F64.float64) : bool :=
  match x, y with
  | S754_zero s, S754_zero s' => Bool.eqb s s'
  | S754_infinity s, S754_infinity s' => Bool.eqb s s'
  | S754_nan, S754_nan => true
  | S754_finite s m e, S754_finite s' m' e' => Bool.eqb s s' && Pos.eqb m m' && Z.eqb e e'
  | _, _ => false
  end.

(** The image width clamped to [400, 1600]: the widths whose ratio to 800
    lies in [0.5, 2.0]. *)
Definition clampWidth (W : Z) : Z := Z.max 400 (Z.min W 1600).

(** The font sizes of the widths [lo .. hi] are [c]. *)
Definition table_const (lo hi : Z) (c : F64.float64) : bool :=
  forallb (fun w => feqb (autoFontSize w) c) (int_range lo hi).

(** Every element is below or equal to itself and to all later ones. *)
Fixpoint pairwise_leb (l : list F64.float64) : bool :=
  match l with
  | [] => true
  | x :: r => F64.leb x x && forallb (F64.leb x) r && pairwise_leb r
  end.

Lemma feqb_eq x y : feqb x y = true -> x = y.
Proof.
  destruct x as [s | s | | s m e], y as [s' | s' | | s' m' e']; simpl; try discriminate;
    try (intros H; apply Bool.eqb_prop in H; now subst); try reflexivity.
  rewrite !andb_true_iff. intros [[Hs Hm] He].
  apply Bool.eqb_prop in Hs. apply Pos.eqb_eq in Hm. apply Z.eqb_eq in He. now subst.
Qed.

(** The scale factor of a negative width is negative. *)
Lemma scale_negative p :
  let y := F64.div (F64.of_int (Z.neg p)) F64.c800 in
  y = S754_infinity true \/ exists m e, y = S754_finite true m e.
Proof.
  unfold F64.of_int, binary_normalize.
  destruct (F64Facts.binary_round_int true p) as [Hinf | (m & e & Hf & Hd & He)].
  - rewrite Hinf. left. reflexivity.
  - rewrite Hf.
    destruct (F64Facts.div_800 true m e Hd ltac:(lia)) as [-> | (m' & e' & -> & _)];
      [left | right]; eauto.
Qed.

(** The scale factor of a width from 4096 on is infinite or has an exponent
    above the one of 2.0. *)
Lemma scale_large W :
  4096 <= W ->
  let y := F64.div (F64.of_int W) F64.c800 in
  y = S754_infinity false \/ exists m e, y = S754_finite false m e /\ -50 <= e.
Proof.
  intros HW. destruct W as [| p | p]; try lia.
  unfold F64.of_int, binary_normalize.
  assert (Hdp : 13 <= Z.pos (digits2_pos p)).
  { pose proof (F64Facts.digits_bounds p) as [_ Dhi].
    destruct (Z_lt_le_dec (Z.pos (digits2_pos p)) 13) as [Hlt |]; [| assumption].
    assert (2 ^ Z.pos (digits2_pos p) <= 2 ^ 12) by (apply Z.pow_le_mono_r; lia).
    change (2 ^ 12) with 4096 in *. lia. }
  destruct (F64Facts.binary_round_int false p) as [Hinf | (m & e & Hf & Hd & He)].
  - rewrite Hinf. left. reflexivity.
  - rewrite Hf.
    destruct (F64Facts.div_800 false m e Hd ltac:(lia)) as [-> | (m' & e' & -> & He')];
      [left; reflexivity | right].
    exists m', e'. split; [reflexivity | lia].
Qed.

Lemma ltb_above e m : -50 <= e ->
  F64.ltb (S754_finite false m e) F64.c0_5 = false /\
  F64.ltb F64.c2_0 (S754_finite false m e) = true /\
  F64.ltb (S754_finite false m e) F64.c2_0 = false.
Proof.
  intros He. unfold F64.ltb, SFltb, F64.c0_5, F64.c2_0, SFcompare.
  destruct (Z.compare_spec e (-53)) as [? | ? | _]; try lia.
  destruct (Z.compare_spec (-51) e) as [? | _ | ?]; try lia.
  destruct (Z.compare_spec e (-51)) as [? | ? | _]; try lia.
  all: auto.
Qed.

(** A negative width: the scale factor is clamped to 0.5. *)
Lemma auto_negative p :
  autoFontSize (Z.neg p) = F64.c24 /\
  F64.clamp F64.c0_5 F64.c2_0 (F64.div (F64.of_int (Z.neg p)) F64.c800) = F64.c0_5.
Proof.
  unfold autoFontSize.
  destruct (scale_negative p) as [-> | (m & e & ->)]; split; reflexivity.
Qed.

(** A width from 4096 on: the scale factor is clamped to 2.0. *)
Lemma auto_large W :
  4096 <= W ->
  autoFontSize W = F64.c96 /\
  F64.clamp F64.c0_5 F64.c2_0 (F64.div (F64.of_int W) F64.c800) = F64.c2_0.
Proof.
  intros HW. unfold autoFontSize, F64.clamp, F64.fmin, F64.fmax.
  destruct (scale_large W HW) as [-> | (m & e & -> & He)]; [split; reflexivity |].
  destruct (ltb_above e m He) as (-> & -> & ->). split; reflexivity.
Qed.

(** Up to 4095 the code's clamp is the specification's. *)
Lemma table_clamp_ok :
  forallb (fun w => feqb (autoFontSize w)
                      (F64.mul F64.c48
                         (F64.clamp F64.c0_5 F64.c2_0
                            (F64.div (F64.of_int w) F64.c800))))
    (int_range 0 4095) = true.
Proof. vm_compute. reflexivity. Qed.

(** The font size is 48 times the clamped scale factor. *)
Lemma auto_clamp_scale W :
  autoFontSize W =
  F64.mul F64.c48 (F64.clamp F64.c0_5 F64.c2_0 (F64.div (F64.of_int W) F64.c800)).
Proof.
  destruct (Z_lt_le_dec W 0) as [Hneg | Hpos].
  - destruct W as [| p | p]; try lia.
    destruct (auto_negative p) as [-> ->]. reflexivity.
  - destruct (Z_lt_le_dec W 4096) as [Hlow | Hhigh].
    + pose proof table_clamp_ok as Ht. rewrite forallb_forall in Ht.
      apply feqb_eq, Ht, int_range_In. lia.
    + destruct (auto_large W Hhigh) as [-> ->]. reflexivity.
Qed.

Lemma table_const_spec lo hi c :
  table_const lo hi c = true -> forall w, lo <= w <= hi -> autoFontSize w = c.
Proof.
  unfold table_const. rewrite forallb_forall. intros Ht w Hw.
  apply feqb_eq, Ht, int_range_In, Hw.
Qed.

Lemma auto_low W : 0 <= W <= 400 -> autoFontSize W = F64.c24.
Proof. apply (table_const_spec 0 400). vm_compute. reflexivity. Qed.

Lemma auto_high W : 1600 <= W <= 4095 -> autoFontSize W = F64.c96.
Proof. apply (table_const_spec 1600 4095). vm_compute. reflexivity. Qed.

Lemma table_unclamped_ok :
  forallb (fun w => feqb (autoFontSize w)
                      (F64.mul F64.c48 (F64.div (F64.of_int w) F64.c800)))
    (int_range 400 1600) = true.
Proof. vm_compute. reflexivity. Qed.

Lemma auto_unclamped W :
  400 <= W <= 1600 ->
  autoFontSize W = F64.mul F64.c48 (F64.div (F64.of_int W) F64.c800).
Proof.
  pose proof table_unclamped_ok as Ht. rewrite forallb_forall in Ht.
  intros Hw. apply feqb_eq, Ht, int_range_In, Hw.
Qed.

(** The font size depends on the width through its clamped value only. *)
Lemma auto_clamp W : autoFontSize W = autoFontSize (clampWidth W).
Proof.
  unfold clampWidth.
  destruct (Z_lt_le_dec W 0) as [Hneg | Hpos].
  - destruct W as [| p | p]; try lia.
    rewrite (proj1 (auto_negative p)). replace (Z.max 400 (Z.min (Z.neg p) 1600)) with 400 by lia.
    symmetry. apply auto_low. lia.
  - destruct (Z_lt_le_dec W 400) as [Hlow | Hmid].
    + replace (Z.max 400 (Z.min W 1600)) with 400 by lia.
      rewrite !auto_low by lia. reflexivity.
    + destruct (Z_lt_le_dec 1600 W) as [Hhigh | Hin].
      * replace (Z.max 400 (Z.min W 1600)) with 1600 by lia.
        rewrite (auto_high 1600) by lia.
        destruct (Z_lt_le_dec W 4096); [apply auto_high | apply (auto_large W)]; lia.
      * f_equal. lia.
Qed.

Lemma pairwise_leb_nth d l :
  pairwise_leb l = true ->
  forall i j, (i <= j < length l)%nat -> F64.leb (nth i l d) (nth j l d) = true.
Proof.
  induction l as [| x r IH]; simpl; intros Hp i j Hij; [lia |].
  rewrite !andb_true_iff in Hp. destruct Hp as [[Hxx Hall] Hr].
  destruct i as [| i], j as [| j]; try lia.
  - exact Hxx.
  - rewrite forallb_forall in Hall. apply Hall, nth_In. lia.
  - apply IH; [assumption | lia].
Qed.

Lemma auto_nth W :
  400 <= W <= 1600 ->
  nth (Z.to_nat (W - 400)) (List.map autoFontSize (int_range 400 1600)) (autoFontSize 400)
    = autoFontSize W.
Proof.
  intros HW. unfold int_range. rewrite List.map_map.
  set (f := fun i : nat => autoFontSize (400 + Z.of_nat i)).
  change (autoFontSize 400) with (f 0%nat).
  rewrite List.map_nth, seq_nth by lia.
  unfold f. f_equal. lia.
Qed.

Lemma table_sorted_ok :
  pairwise_leb (List.map autoFontSize (int_range 400 1600)) = true.
Proof. vm_compute. reflexivity. Qed.

Lemma auto_monotone_mid W1 W2 :
  400 <= W1 -> W1 <= W2 -> W2 <= 1600 ->
  F64.leb (autoFontSize W1) (autoFontSize W2) = true.
Proof.
  intros H1 H12 H2.
  rewrite <- (auto_nth W1), <- (auto_nth W2) by lia.
  apply (pairwise_leb_nth _ _ table_sorted_ok).
  rewrite length_map. unfold int_range. rewrite length_map, length_seq. simpl. lia.
Qed.

(** C3: with [AutoFontSize] on, the font size for an image width [W] is 48
    times [W/800] clamped to [0.5, 2.0], which is 48 times the ratio to 800
    of the width clamped to [400, 1600]; widths 400, 800 and 3200 give 24,
    48 and 96 (not 192); and the font size never decreases when the width
    grows. *)
Theorem auto_font_size cfg :
  AutoFontSize cfg = true ->
  (forall W,
     effectiveFontSize cfg W =
     F64.mul (F64.of_int 48)
       (F64.clamp (F64.lit 1 2) (F64.of_int 2)
          (F64.div (F64.of_int W) (F64.of_int 800)))) /\
  (forall W,
     effectiveFontSize cfg W =
     F64.mul (F64.of_int 48)
       (F64.div (F64.of_int (Z.max 400 (Z.min W 1600))) (F64.of_int 800))) /\
  effectiveFontSize cfg 400 = F64.of_int 24 /\
  effectiveFontSize cfg 800 = F64.of_int 48 /\
  effectiveFontSize cfg 3200 = F64.of_int 96 /\
  effectiveFontSize cfg 3200 <> F64.of_int 192 /\
  (forall W1 W2, W1 <= W2 ->
     F64.leb (effectiveFontSize cfg W1) (effectiveFontSize cfg W2) = true).
Proof.
  intros Hauto. unfold effectiveFontSize. rewrite Hauto.
  split; [| split; [| split; [| split; [| split; [| split]]]]].
  - intros W. apply auto_clamp_scale.
  - intros W. rewrite auto_clamp. unfold clampWidth.
    rewrite auto_unclamped by lia. reflexivity.
  - vm_compute. reflexivity.
  - vm_compute. reflexivity.
  - vm_compute. reflexivity.
  - vm_compute. discriminate.
  - intros W1 W2 Hle. rewrite (auto_clamp W1), (auto_clamp W2).
    unfold clampWidth. apply auto_monotone_mid; lia.
Qed.

Lemma auto_font_size_witness :
  effectiveFontSize DefaultConfig 400 = F64.of_int 24 /\
  effectiveFontSize DefaultConfig 1000 =
    F64.mul (F64.of_int 48) (F64.div (F64.of_int 1000) (F64.of_int 800)) /\
  F64.leb (effectiveFontSize DefaultConfig 1000) (effectiveFontSize DefaultConfig 5000) = true.
Proof.
  destruct (auto_font_size DefaultConfig eq_refl) as (_ & Hclamp & H400 & _ & _ & _ & Hmono).
  split; [exact H400 |]. split; [exact (Hclamp 1000) |].
  apply Hmono. lia.
Defined.

End AutoSize.


(** * Captions under the automatic font size *)

Module AutoLayout.

(** For the font size of width [w]: the caption block [int(F * 1.5)] is 36
    to 144 pixels high, the first baseline offset [int(F * 0.8)] is positive
    and below it, and the two offsets together stay below two blocks. *)
Definition layoutCheck (w : Z) : bool :=
  let F := autoFontSize w in
  match F64.trunc (F64.mul F F64.c1_5),
        F64.trunc (F64.mul F F64.c0_8),
        F64.trunc (F64.mul F F64.c1_2) with
  | Some c, Some a, Some b =>
      (36 <=? c) && (c <=? 144) && (0 <? a) && (0 <=? b) && (a <? c) && (a + b <? 2 * c)
  | _, _, _ => false
  end.

Lemma layout_table : forallb layoutCheck (int_range 400 1600) = true.
Proof. vm_compute. reflexivity. Qed.

Lemma to_int_trunc u x z :
  F64.trunc x = Some z -> GoInt.min_int <= z <= GoInt.max_int -> F64.to_int u x = z.
Proof.
  intros Ht Hz. unfold F64.to_int. rewrite Ht.
  apply GoInt.in_range_spec in Hz. now rewrite Hz.
Qed.

Lemma auto_layout_numbers u W :
  let F := autoFontSize W in
  exists c a b,
    F64.to_int u (F64.mul F F64.c1_5) = c /\
    F64.to_int u (F64.mul F F64.c0_8) = a /\
    F64.to_int u (F64.mul F F64.c1_2) = b /\
    36 <= c <= 144 /\ 0 < a < c /\ 0 <= b /\ a + b < 2 * c.
Proof.
  cbv zeta. rewrite AutoSize.auto_clamp.
  pose proof layout_table as Ht. rewrite forallb_forall in Ht.
  specialize (Ht (AutoSize.clampWidth W)
                 ltac:(apply int_range_In; unfold AutoSize.clampWidth; lia)).
  unfold layoutCheck in Ht. cbv zeta in Ht.
  destruct (F64.trunc (F64.mul _ F64.c1_5)) as [c |] eqn:Ec; [| discriminate].
  destruct (F64.trunc (F64.mul _ F64.c0_8)) as [a |] eqn:Ea; [| discriminate].
  destruct (F64.trunc (F64.mul _ F64.c1_2)) as [b |] eqn:Eb; [| discriminate].
  rewrite !andb_true_iff, !Z.leb_le, !Z.ltb_lt in Ht.
  exists c, a, b.
  rewrite (to_int_trunc u _ c Ec), (to_int_trunc u _ a Ea), (to_int_trunc u _ b Eb)
    by (unfold GoInt.min_int, GoInt.max_int, GoInt.half; lia).
  repeat split; lia.
Qed.

Lemma auto_bounds W :
  F64.leb F64.c24 (autoFontSize W) = true /\ F64.leb (autoFontSize W) F64.c96 = true.
Proof.
  rewrite (AutoSize.auto_clamp W). split.
  - rewrite <- (AutoSize.auto_low 400) by lia.
    apply AutoSize.auto_monotone_mid; unfold AutoSize.clampWidth; lia.
  - rewrite <- (AutoSize.auto_high 1600) by lia.
    apply AutoSize.auto_monotone_mid; unfold AutoSize.clampWidth; lia.
Qed.

Section Fit.

Variable Font : Type.
Variable Face : Type.
Variable opentype_Parse : list Byte.byte -> result Font.
Variable opentype_NewFace : Font -> FaceOptions -> result Face.
Variable MeasureString : Face -> string -> Z.
Variable gobold_TTF : list Byte.byte.
Variable map_unicode_upper : string -> string.
Variable int_unspecified : F64.float64 -> Z.

(** With [AutoFontSize] on, the font size lies between 24 and 96 whatever
    the image, and with a non-negative padding every caption that is drawn
    has its baseline below the image and inside the canvas. *)
Theorem auto_captions_fit fs g img out err g' ev :
  Generate Font Face opentype_Parse opentype_NewFace MeasureString gobold_TTF
    map_unicode_upper int_unspecified fs g img = ((Some out, err), g', ev) ->
  let cfg := config Font g in
  let P := Padding cfg in
  let H := Dy (Bounds img) in
  let F := effectiveFontSize cfg (Dx (Bounds img)) in
  let top := fst (captions map_unicode_upper cfg) in
  let bottom := snd (captions map_unicode_upper cfg) in
  let y1 := firstBaseline int_unspecified cfg H F in
  let y2 := nextBaseline int_unspecified y1 F top in
  AutoFontSize cfg = true ->
  0 <= P -> 0 <= H -> H + 2 * P + 288 <= GoInt.max_int ->
  F64.leb F64.c24 F = true /\ F64.leb F F64.c96 = true /\
  (GoStrings.nonempty top = true -> P + H < y1 < Dy (canvasRect Face out)) /\
  (GoStrings.nonempty bottom = true -> P + H < y2 < Dy (canvasRect Face out)).
Proof.
  intros HG cfg P H F top bottom y1 y2 Hauto HP HH Hmax.
  apply Generate_ok in HG as (face & _ & _ & ->).
  rewrite drawCaptions_rect, compose_rect. fold cfg P H F top bottom.
  assert (HF : F = autoFontSize (Dx (Bounds img))).
  { unfold F, effectiveFontSize. now rewrite Hauto. }
  destruct (auto_layout_numbers int_unspecified (Dx (Bounds img)))
    as (c & a & b & Hc & Ha & Hb & Rc & Ra & Rb & Rab).
  cbv zeta in Hc, Ha, Hb. rewrite <- HF in Hc, Ha, Hb.
  split; [rewrite HF; apply auto_bounds |]. split; [rewrite HF; apply auto_bounds |].
  unfold GoInt.max_int, GoInt.half in Hmax.
  assert (Hy1 : y1 = P + H + a).
  { unfold y1, firstBaseline. fold P. rewrite Ha. unfold GoInt.add.
    rewrite (GoInt.wrap_id (P + H)) by (unfold GoInt.min_int, GoInt.max_int, GoInt.half; lia).
    apply GoInt.wrap_id. unfold GoInt.min_int, GoInt.max_int, GoInt.half. lia. }
  assert (Hy2 : y2 = if GoStrings.nonempty top then P + H + a + b else P + H + a).
  { unfold y2, nextBaseline. rewrite Hb, Hy1.
    destruct (GoStrings.nonempty top); [| reflexivity].
    apply GoInt.wrap_id. unfold GoInt.min_int, GoInt.max_int, GoInt.half. lia. }
  assert (Hth : textHeightOf int_unspecified F top bottom =
                (if GoStrings.nonempty top then c else 0)
                + (if GoStrings.nonempty bottom then c else 0)).
  { unfold textHeightOf. rewrite Hc. unfold GoInt.add.
    destruct (GoStrings.nonempty top), (GoStrings.nonempty bottom);
      rewrite ?Z.add_0_l, ?Z.add_0_r;
      rewrite ?(GoInt.wrap_id c) by (unfold GoInt.min_int, GoInt.max_int, GoInt.half; lia);
      try reflexivity.
    apply GoInt.wrap_id. unfold GoInt.min_int, GoInt.max_int, GoInt.half. lia. }
  set (th := textHeightOf int_unspecified F top bottom) in *.
  assert (Hth' : 0 <= th <= 2 * c)
    by (rewrite Hth; destruct (GoStrings.nonempty top), (GoStrings.nonempty bottom); lia).
  assert (Hrh : GoInt.add (GoInt.add H (GoInt.mul P 2)) th = H + 2 * P + th).
  { rewrite <- (GoInt.wrap_id th) at 1
      by (unfold GoInt.min_int, GoInt.max_int, GoInt.half; lia).
    rewrite resultHeight_exact. apply GoInt.wrap_id.
    unfold GoInt.min_int, GoInt.max_int, GoInt.half. lia. }
  rewrite Hrh, Rect_nonneg_Dy by lia.
  rewrite (GoInt.wrap_id (H + 2 * P + th))
    by (unfold GoInt.min_int, GoInt.max_int, GoInt.half; lia).
  rewrite Hy1, Hy2, Hth.
  split; intros Hne.
  - rewrite Hne. destruct (GoStrings.nonempty bottom); lia.
  - rewrite Hne. destruct (GoStrings.nonempty top); lia.
Qed.

End Fit.

End AutoLayout.


(** * A concrete world

    Collaborators small enough to run the package on: fonts are their own
    bytes, the parser accepts the TrueType signature, every face can be
    built, and a glyph is ten pixels wide. *)

Module Demo.

Import Byte.

Definition Font : Type := list byte.
Definition Face : Type := (Font * FaceOptions)%type.

Definition parse (data : list byte) : result Font :=
  match data with
  | x00 :: x01 :: x00 :: x00 :: _ => Ok data
  | _ => Err (ErrLib "not a font")
  end.

Definition newFace (f : Font) (opts : FaceOptions) : result Face := Ok (f, opts).

Definition measure (face : Face) (text : string) : Z :=
  10 * Z.of_nat (String.length text).

Definition gobold : list byte := [x00; x01; x00; x00; x47; x6f].

Definition unicodeUpper (s : string) : string := s.

(** As on amd64, where an unrepresentable conversion gives the least [int]. *)
Definition unspecified (x : F64.float64) : Z := GoInt.min_int.

Definition generate := Generate Font Face parse newFace measure gobold unicodeUpper unspecified.
Definition generateN := GenerateN Font Face parse newFace measure gobold unicodeUpper unspecified.
Definition loadFontFile := LoadFontFile Font.

(** A font file [a.ttf] of eight bytes. *)
Definition ttf : list byte := [x00; x01; x00; x00; x00; x0a; x00; x80].

Definition fs_font : FileSystem :=
  {| os_Stat := fun path => if String.eqb path "a.ttf" then StatSize 8 else StatNotExist;
     os_ReadFile := fun path => if String.eqb path "a.ttf" then Ok ttf
                                else Err (ErrLib "no such file") |}.


(** The same path holding eight bytes that are no font. *)
Definition fs_junk : FileSystem :=
  {| os_Stat := fun path => if String.eqb path "a.ttf" then StatSize 8 else StatNotExist;
     os_ReadFile := fun path => if String.eqb path "a.ttf"
                                then Ok [x6e; x6f; x74; x61; x66; x6f; x6e; x74]
                                else Err (ErrLib "no such file") |}.

Definition black : RGBA := {| R := 0; G := 0; B := 0; A := 255 |}.

(** A 200 x 100 image. *)
Definition img : Image :=
  {| Bounds := Rect 0 0 200 100; At := fun _ _ => black |}.

Definition generatorOf (cfg : Config) : Generator Font :=
  {| config := cfg; fontCache := ∅ |}.

(** The default configuration with the captions "top" and "bottom". *)
Definition cfg_captions : Config := setCaptions "top" "bottom" true DefaultConfig.

(** The default configuration with the font file [a.ttf]. *)
Definition cfg_path : Config := setFont "a.ttf" [] cfg_captions.

(** A fixed font size of -1 and the single caption "A". *)
Definition cfg_negative : Config :=
  setFontSize (F64.of_int (-1)) false (setCaptions "A" "" false DefaultConfig).

(** The captions "hello" / "HELLO" above the caption "x". *)
Definition cfg_lower : Config := setCaptions "hello" "x" true DefaultConfig.
Definition cfg_upper : Config := setCaptions "HELLO" "x" false DefaultConfig.

(** The texts of the string passes made on a canvas, without repeats in a
    row: one entry for the passes of each caption. *)
Fixpoint drawnTexts (ops : list (DrawOp Face)) : list string :=
  match ops with
  | [] => []
  | DrawString _ _ _ _ text :: rest =>
      match drawnTexts rest with
      | t :: ts => if String.eqb text t then t :: ts else text :: t :: ts
      | [] => [text]
      end
  | _ :: rest => drawnTexts rest
  end.

Definition canvasOf (r : (option (RGBAImage Face) * option error) * Generator Font * list Event)
  : option (RGBAImage Face) := fst (fst (fst r)).

End Demo.

(** The embedded fonts of [GetAvailableFonts] in the concrete world. *)
Module DemoFonts.

Import Byte.

Definition goregular : list byte := [x00; x01; x00; x00; x52; x65].



Definition face24 : Demo.Face := (Demo.ttf, faceOptions F64.c24).

End DemoFonts.

(** * The package run on the concrete world *)

(** C1 as stated fails for a negative font size: [int] truncates toward
    zero.  With font size -1, one caption, a 100 pixel high image and padding
    80 the canvas is 259 pixels high, while [H + 2P + floor(F * 1.5)] is
    258. *)
Lemma canvas_height_negative_size :
  exists out,
    Demo.canvasOf (Demo.generate Demo.fs_font (Demo.generatorOf Demo.cfg_negative) Demo.img)
      = Some out /\
    effectiveFontSize Demo.cfg_negative (Dx (Bounds Demo.img)) = F64.of_int (-1) /\
    Dy (canvasRect Demo.Face out) = 259 /\
    Dy (Bounds Demo.img) + 2 * Padding Demo.cfg_negative
      + F64.floor_int Demo.unspecified (F64.mul (F64.of_int (-1)) F64.c1_5) = 258.
Proof. eexists. repeat split; vm_compute; reflexivity. Qed.

Lemma canvas_height_captions_witness :
  exists out,
    Demo.canvasOf (Demo.generate Demo.fs_font (Demo.generatorOf Demo.cfg_captions) Demo.img)
      = Some out /\
    Dy (canvasRect Demo.Face out) = 100 + 2 * 80 + 36 + 36.
Proof.
  destruct (Demo.generate Demo.fs_font (Demo.generatorOf Demo.cfg_captions) Demo.img)
    as [[[[out |] err] g'] ev] eqn:HG; [| vm_compute in HG; discriminate].
  exists out. split; [reflexivity |].
  pose proof (canvas_height_captions Demo.Font Demo.Face Demo.parse Demo.newFace
                Demo.measure Demo.gobold Demo.unicodeUpper Demo.unspecified
                _ _ _ _ _ _ _ HG) as Hthm.
  cbv zeta in Hthm.
  destruct (Hthm ltac:(vm_compute; reflexivity)) as [_ Hdy].
  rewrite Hdy; vm_compute; [reflexivity | split; discriminate].
Defined.


Lemma caption_baselines_witness :
  exists out face,
    Demo.canvasOf (Demo.generate Demo.fs_font (Demo.generatorOf Demo.cfg_captions) Demo.img)
      = Some out /\
    In (DrawString Demo.Face face (TextColor Demo.cfg_captions)
          {| X := 165; Y := 80 + 100 + 19 |} "TOP") (canvasOps Demo.Face out) /\
    In (DrawString Demo.Face face (TextColor Demo.cfg_captions)
          {| X := 150; Y := 80 + 100 + 19 + 28 |} "BOTTOM") (canvasOps Demo.Face out).
Proof.
  destruct (Demo.generate Demo.fs_font (Demo.generatorOf Demo.cfg_captions) Demo.img)
    as [[[[out |] err] g'] ev] eqn:HG; [| vm_compute in HG; discriminate].
  pose proof (caption_baselines Demo.Font Demo.Face Demo.parse Demo.newFace
                Demo.measure Demo.gobold Demo.unicodeUpper Demo.unspecified
                _ _ _ _ _ _ _ HG) as Hthm.
  cbv zeta in Hthm.
  destruct (Hthm ltac:(vm_compute; reflexivity)) as (face & Hops & _).
  assert (Hw : Dx (canvasRect Demo.Face out) = 360).
  { vm_compute in HG. injection HG as <- _ _ _. reflexivity. }
  exists out, face. split; [reflexivity |].
  rewrite Hops, Hw. split.
  - apply in_or_app. right. apply in_or_app. left.
    apply in_or_app. right. left. vm_compute. reflexivity.
  - apply in_or_app. right. apply in_or_app. right.
    apply in_or_app. right. left. vm_compute. reflexivity.
Defined.


(** C7 as stated fails when the font file does not parse: nothing is cached
    and each of two calls reads the file again. *)
Lemma unparsable_font_read_again :
  FontData Demo.cfg_path = [] /\
  FontPath Demo.cfg_path = "a.ttf"%string /\
  fileReads Demo.Face
    (fst (Demo.generateN Demo.fs_junk (Demo.generatorOf Demo.cfg_path) Demo.img 2)) = 2%nat /\
  List.map snd
    (fst (Demo.generateN Demo.fs_junk (Demo.generatorOf Demo.cfg_path) Demo.img 2)) =
  let bytes := [Byte.x6e; Byte.x6f; Byte.x74; Byte.x61; Byte.x66; Byte.x6f; Byte.x6e; Byte.x74] in
  [[EvStat "a.ttf"; EvReadFile "a.ttf"; EvParse bytes];
   [EvStat "a.ttf"; EvReadFile "a.ttf"; EvParse bytes]].
Proof. repeat split; vm_compute; reflexivity. Qed.

Lemma cached_font_calls_witness :
  fileReads Demo.Face
    (fst (Demo.generateN Demo.fs_font (Demo.generatorOf Demo.cfg_path) Demo.img 3)) = 1%nat /\
  ((fileReads Demo.Face
      (fst (Demo.generateN Demo.fs_font (Demo.generatorOf Demo.cfg_path) Demo.img 3)) <= 1)%nat /\
   forall c,
     In c (tl (fst (Demo.generateN Demo.fs_font (Demo.generatorOf Demo.cfg_path) Demo.img 3))) ->
     snd c = []).
Proof.
  split; [vm_compute; reflexivity |].
  apply (cached_font_calls Demo.Font Demo.Face Demo.parse Demo.newFace
           Demo.measure Demo.gobold Demo.unicodeUpper Demo.unspecified
           Demo.fs_font (Demo.generatorOf Demo.cfg_path) Demo.img 2
           eq_refl ltac:(discriminate)).
  right. exists Demo.ttf, [EvStat "a.ttf"; EvReadFile "a.ttf"], Demo.ttf.
  split; reflexivity.
Defined.



(** C9 as stated fails when the other caption has a lower-case letter: with
    the bottom caption "x", [TextUppercase = true] draws "HELLO" and "X",
    [TextUppercase = false] draws "HELLO" and "x". *)
Lemma uppercase_changes_other_caption :
  exists out1 out2,
    Demo.canvasOf (Demo.generate Demo.fs_font (Demo.generatorOf Demo.cfg_lower) Demo.img)
      = Some out1 /\
    Demo.canvasOf (Demo.generate Demo.fs_font (Demo.generatorOf Demo.cfg_upper) Demo.img)
      = Some out2 /\
    Demo.drawnTexts (canvasOps Demo.Face out1) = ["HELLO"; "X"]%string /\
    Demo.drawnTexts (canvasOps Demo.Face out2) = ["HELLO"; "x"]%string /\
    out1 <> out2.
Proof.
  do 2 eexists. split; [vm_compute; reflexivity |]. split; [vm_compute; reflexivity |].
  split; [vm_compute; reflexivity |]. split; [vm_compute; reflexivity |].
  intros Heq. apply (f_equal (fun c => Demo.drawnTexts (canvasOps Demo.Face c))) in Heq.
  vm_compute in Heq. discriminate.
Qed.

(** C6: the cache is meant for file fonts only (line 233), but after
    [LoadFontFile] the configuration holds the bytes and the path, [Generate]
    resolves the raw bytes, and the font parsed from them is stored in the
    cache, under "embedded_font_data", a key that is never looked up. *)
Lemma raw_font_in_cache :
  let g1 := snd (fst (Demo.loadFontFile Demo.fs_font (NewGenerator Demo.Font None) "a.ttf")) in
  let g2 := snd (fst (Demo.generate Demo.fs_font g1 Demo.img)) in
  FontData (config Demo.Font g1) = Demo.ttf /\
  FontPath (config Demo.Font g1) = "a.ttf"%string /\
  snd (Demo.generate Demo.fs_font g1 Demo.img) = [EvParse Demo.ttf] /\
  fontCache Demo.Font g1 = ∅ /\
  fontCache Demo.Font g2 !! "embedded_font_data"%string = Some Demo.ttf /\
  fontCache Demo.Font g2 !! "a.ttf"%string = None.
Proof. repeat split; vm_compute; reflexivity. Qed.



(** * The further properties on the concrete world *)






Lemma caption_is_centred_witness :
  List.last (captionPasses Demo.Face Demo.measure DefaultConfig 360 DemoFonts.face24 "TOP" 199)
            (DrawSrc Demo.Face (Rect 0 0 0 0) Demo.black) =
    DrawString Demo.Face DemoFonts.face24 (TextColor DefaultConfig) {| X := 165; Y := 199 |} "TOP" /\
  0 <= (360 - (165 + 30)) - 165 <= 1.
Proof.
  pose proof (caption_is_centred Demo.Face Demo.measure DefaultConfig 360 DemoFonts.face24
                "TOP" 199 (DrawSrc Demo.Face (Rect 0 0 0 0) Demo.black)
                ltac:(discriminate)
                ltac:(vm_compute; split; discriminate)
                ltac:(vm_compute; split; discriminate)) as Hthm.
  cbv zeta in Hthm. destruct Hthm as (Hlast & Hfit & _).
  split; [exact Hlast |].
  exact (proj2 (proj2 (Hfit ltac:(vm_compute; discriminate)))).
Defined.

Lemma border_ring_witness :
  borderPasses Demo.Face (setBorder 2 DefaultConfig) 200 100 =
    [DrawSrc Demo.Face {| Min := {| X := 78; Y := 78 |}; Max := {| X := 282; Y := 182 |} |}
       (BorderColor DefaultConfig);
     DrawSrc Demo.Face {| Min := {| X := 79; Y := 79 |}; Max := {| X := 281; Y := 181 |} |}
       (BorderColor DefaultConfig)].
Proof.
  pose proof (border_ring Demo.Face (setBorder 2 DefaultConfig) 200 100) as Hthm.
  cbv zeta in Hthm.
  destruct (Hthm ltac:(vm_compute; split; discriminate)
                 ltac:(vm_compute; split; discriminate)
                 ltac:(vm_compute; split; discriminate)
                 ltac:(vm_compute; split; discriminate)) as [Hpasses _].
  rewrite Hpasses. reflexivity.
Defined.

Lemma painting_order_witness :
  exists out,
    Demo.canvasOf (Demo.generate Demo.fs_font (Demo.generatorOf Demo.cfg_captions) Demo.img)
      = Some out /\
    hd_error (canvasOps Demo.Face out) =
      Some (DrawSrc Demo.Face (canvasRect Demo.Face out) (BackgroundColor Demo.cfg_captions)).
Proof.
  destruct (Demo.generate Demo.fs_font (Demo.generatorOf Demo.cfg_captions) Demo.img)
    as [[[[out |] err] g'] ev] eqn:HG; [| vm_compute in HG; discriminate].
  pose proof (painting_order Demo.Font Demo.Face Demo.parse Demo.newFace
                Demo.measure Demo.gobold Demo.unicodeUpper Demo.unspecified
                _ _ _ _ _ _ _ HG) as Hthm.
  cbv zeta in Hthm. destruct Hthm as (passes & Hops & _).
  exists out. split; [reflexivity |]. rewrite Hops. reflexivity.
Defined.

Lemma canvas_ignores_caption_text_witness :
  exists out1 out2,
    fst (fst (Demo.generate Demo.fs_font (Demo.generatorOf Demo.cfg_captions) Demo.img))
      = (Some out1, None) /\
    fst (fst (Demo.generate Demo.fs_font (Demo.generatorOf Demo.cfg_upper) Demo.img))
      = (Some out2, None) /\
    canvasRect Demo.Face out2 = canvasRect Demo.Face out1.
Proof.
  destruct (fst (fst (Demo.generate Demo.fs_font (Demo.generatorOf Demo.cfg_captions) Demo.img)))
    as [[out1 |] [e |]] eqn:HG; try (vm_compute in HG; discriminate).
  destruct (canvas_ignores_caption_text Demo.Font Demo.Face Demo.parse Demo.newFace
              Demo.measure Demo.gobold Demo.unicodeUpper Demo.unspecified
              Demo.fs_font (Demo.generatorOf DefaultConfig) Demo.img
              "top" "bottom" true "HELLO" "x" false out1 eq_refl eq_refl HG)
    as (out2 & HG2 & Hrect).
  exists out1, out2. split; [reflexivity |]. split; [exact HG2 | exact Hrect].
Defined.

Lemma toUpperSafe_ascii_witness :
  toUpperSafe Demo.unicodeUpper "Hello, world" = "HELLO, WORLD"%string /\
  GoStrings.any_byte GoStrings.is_lower (toUpperSafe Demo.unicodeUpper "Hello, world") = false.
Proof.
  split; [reflexivity |].
  exact (proj1 (proj2 (proj2 (proj2
           (toUpperSafe_ascii Demo.unicodeUpper "Hello, world" eq_refl))))).
Defined.

Lemma bold_is_the_default_font_witness :
  observable Demo.Font Demo.Face
    (Demo.generate Demo.fs_font (Demo.generatorOf (setFont "" Demo.gobold DefaultConfig)) Demo.img) =
  observable Demo.Font Demo.Face
    (Demo.generate Demo.fs_font (NewGenerator Demo.Font None) Demo.img).
Proof.
  exact (proj2 (bold_is_the_default_font Demo.Font Demo.Face Demo.parse Demo.newFace
                  Demo.measure Demo.gobold Demo.unicodeUpper Demo.unspecified
                  DemoFonts.goregular Demo.fs_font (NewGenerator Demo.Font None) Demo.img
                  Demo.gobold eq_refl eq_refl ltac:(vm_compute; reflexivity))).
Defined.

Lemma auto_captions_fit_witness :
  exists out,
    Demo.canvasOf (Demo.generate Demo.fs_font (Demo.generatorOf Demo.cfg_captions) Demo.img)
      = Some out /\
    effectiveFontSize Demo.cfg_captions 200 = F64.c24 /\
    80 + 100 < firstBaseline Demo.unspecified Demo.cfg_captions 100 F64.c24
             < Dy (canvasRect Demo.Face out).
Proof.
  destruct (Demo.generate Demo.fs_font (Demo.generatorOf Demo.cfg_captions) Demo.img)
    as [[[[out |] err] g'] ev] eqn:HG; [| vm_compute in HG; discriminate].
  pose proof (AutoLayout.auto_captions_fit Demo.Font Demo.Face Demo.parse Demo.newFace
                Demo.measure Demo.gobold Demo.unicodeUpper Demo.unspecified
                _ _ _ _ _ _ _ HG) as Hthm.
  cbv zeta in Hthm.
  destruct (Hthm eq_refl ltac:(vm_compute; discriminate) ltac:(vm_compute; discriminate)
                 ltac:(vm_compute; discriminate)) as (_ & _ & Htop & _).
  exists out. split; [reflexivity |]. split; [vm_compute; reflexivity |].
  exact (Htop eq_refl).
Defined.
